(** * ntm.py, the network traffic monitor: a shallow embedding and its properties

    The development follows the layout of [ntm.py]:
    - [PyFloat]: the Python [float] operations the program uses (IEEE 754
      binary64, here Rocq's primitive [float]), with the exceptions Python
      raises where IEEE arithmetic would return a special value;
    - [humanize_bytes], the unit-scaling helper;
    - [TrafficCollector], the sampling engine, with the operating system's
      interface table and the clock as explicit inputs of every call;
    - [AnsiRenderer], the dashboard's cross-tick state and its bars;
    - [main_loop], the driver loop over any renderer.  *)

From Stdlib Require Import ZArith String Floats DecimalString List Lia.
From stdpp Require Import gmap strings.

#[local] Set Warnings "-inexact-float".
#[local] Open Scope Z_scope.

(** ** Exceptions and results *)

(** The exceptions that occur in [ntm.py]; [SystemExit] is what [sys.exit]
    raises. *)
Inductive exn : Type :=
| RuntimeError (msg : string)
| ValueError (msg : string)
| KeyError (msg : string)
| OverflowError (msg : string)
| ZeroDivisionError (msg : string)
| SystemExit (code : Z).

(** A call either returns a value or raises. *)
Inductive result (A : Type) : Type :=
| Returned (a : A)
| Raised (e : exn).
Arguments Returned {A} a.
Arguments Raised {A} e.

#[global] Instance result_ret : MRet result := fun A a => Returned a.

#[global] Instance result_bind : MBind result := fun A B k m =>
  match m with
  | Returned a => k a
  | Raised e => Raised e
  end.

(** ** Python floats *)

Module PyFloat.

(** [max(a, b)] with two positional arguments keeps [a] unless [b > a]. *)
Definition py_max (a b : float) : float :=
  if (a <? b)%float then b else a.

(** [min(a, b)] keeps [a] unless [b < a]. *)
Definition py_min (a b : float) : float :=
  if (b <? a)%float then b else a.

(** [float(z)] for an [int], as the mixed [int]/[float] operators apply it:
    rounded to nearest, ties to even; [OverflowError] when the rounded value
    is not finite. *)
Definition float_of_int (z : Z) : result float :=
  let f := SF2Prim (binary_normalize prec emax z 0 false) in
  if is_infinity f
  then Raised (OverflowError "int too large to convert to float")
  else Returned f.

(** [a / b] on floats: Python raises on a zero divisor (of either sign). *)
Definition truediv (a b : float) : result float :=
  if (b =? 0)%float
  then Raised (ZeroDivisionError "float division by zero")
  else Returned (a / b)%float.

(** The magnitude of a finite float [m * 2^e], cut to an integer. *)
Definition magnitude_trunc (m : positive) (e : Z) : Z :=
  match e with
  | Zneg p => Z.shiftr (Zpos m) (Zpos p)
  | _ => Z.shiftl (Zpos m) e
  end.

(** [int(x)]: truncation toward zero; NaN and the infinities raise.
    [int_of_sf] works on the sign, mantissa and exponent of the float. *)
Definition int_of_sf (f : spec_float) : result Z :=
  match f with
  | S754_nan => Raised (ValueError "cannot convert float NaN to integer")
  | S754_infinity _ =>
      Raised (OverflowError "cannot convert float infinity to integer")
  | S754_zero _ => Returned 0
  | S754_finite s m e => Returned (cond_Zopp s (magnitude_trunc m e))
  end.

Definition int_of_float (x : float) : result Z := int_of_sf (Prim2SF x).

(** [math.floor(x)], to compare [int] with: the same but for the negative
    numbers, which it rounds away from zero. *)
Definition floor_of_sf (f : spec_float) : result Z :=
  match f with
  | S754_nan => Raised (ValueError "cannot convert float NaN to integer")
  | S754_infinity _ =>
      Raised (OverflowError "cannot convert float infinity to integer")
  | S754_zero _ => Returned 0
  | S754_finite s m e =>
      Returned (match e with
                | Zneg p =>
                    if s then - ((Zpos m + 2 ^ Zpos p - 1) / 2 ^ Zpos p)
                    else Zpos m / 2 ^ Zpos p
                | _ => cond_Zopp s (Z.shiftl (Zpos m) e)
                end)
  end.

Definition floor_of_float (x : float) : result Z := floor_of_sf (Prim2SF x).

(** A float without the negative sign on a number other than zero: zero of
    either sign, a positive number, plus infinity or NaN. *)
Definition sf_nonneg (f : spec_float) : Prop :=
  match f with
  | S754_finite true _ _ | S754_infinity true => False
  | _ => True
  end.

(** Tenths of [m * 2^e], rounded to nearest, ties to even: the digits that
    the format [.1f] prints. *)
Definition tenths (m : positive) (e : Z) : Z :=
  match e with
  | Zneg p =>
      let d := 2 ^ Zpos p in
      let q := (10 * Zpos m) / d in
      let r := (10 * Zpos m) mod d in
      match (2 * r) ?= d with
      | Lt => q
      | Gt => q + 1
      | Eq => if Z.even q then q else q + 1
      end
  | _ => Z.shiftl (10 * Zpos m) e
  end.

Definition digits (z : Z) : string :=
  NilZero.string_of_uint (N.to_uint (Z.to_N z)).

(** [f"{x:.1f}"]: sign, integer digits, a point, one digit. *)
Definition format_1f (x : float) : string :=
  match Prim2SF x with
  | S754_nan => "nan"
  | S754_infinity s => if s then "-inf" else "inf"
  | S754_zero s => if s then "-0.0" else "0.0"
  | S754_finite s m e =>
      let t := tenths m e in
      (if s then "-" else "") +:+ digits (t / 10) +:+ "." +:+ digits (t mod 10)
  end.

(** [n] copies of [s] in a row. *)
Fixpoint str_repeat (s : string) (n : nat) : string :=
  match n with
  | O => ""
  | S n' => s +:+ str_repeat s n'
  end.

(** The string that [s * n] is when it returns: [n] copies of [s], the empty
    string when [n <= 0]. *)
Definition str_mul (s : string) (n : Z) : string := str_repeat s (Z.to_nat n).

(** [s * n] on a [str] of one character, as both strings of [_bar] are.
    The count is first converted to a machine index ([Py_ssize_t], 64 bits):
    a count outside its range raises, a negative one included.  That the
    interpreter finds the memory for the result is taken for granted, here
    as everywhere else in the program. *)
Definition py_str_mul (s : string) (n : Z) : result string :=
  if ((- 2 ^ 63 <=? n) && (n <=? 2 ^ 63 - 1))%bool
  then Returned (str_mul s n)
  else Raised (OverflowError "cannot fit 'int' into an index-sized integer").

(** [math.isfinite(x)]: neither NaN nor an infinity. *)
Definition is_finite (x : float) : bool :=
  match Prim2SF x with
  | S754_zero _ | S754_finite _ _ _ => true
  | S754_infinity _ | S754_nan => false
  end.

End PyFloat.
Import PyFloat.

(** ** UTILS *)

Definition units : list string := ["B"; "KB"; "MB"; "GB"; "TB"].

(** The [while] loop of [humanize_bytes].  [fuel] bounds the number of
    iterations; [None] would mean that the bound was reached with the loop
    condition still true ([humanize_loop_total] shows that it is not, from
    [length units] on). *)
Fixpoint humanize_loop (fuel : nat) (value : float) (idx : nat)
  : option (float * nat) :=
  if ((1024 <=? value)%float && (idx <? length units - 1)%nat)%bool then
    match fuel with
    | O => None
    | S fuel' => humanize_loop fuel' (value / 1024)%float (idx + 1)%nat
    end
  else Some (value, idx).

Definition humanize_bytes (value : float) (rate : bool) : option string :=
  match humanize_loop (length units) value 0 with
  | None => None
  | Some (value', idx) =>
      let suffix := if rate then "/s" else "" in
      Some (format_1f value' +:+ " " +:+ nth idx units "" +:+ suffix)
  end.

(** [value] after [k] divisions by 1024. *)
Fixpoint scaled (k : nat) (value : float) : float :=
  match k with
  | O => value
  | S k' => scaled k' (value / 1024)%float
  end.

(** ** DATA COLLECTOR *)

(** One entry of [psutil.net_io_counters(pernic=True)]; of the fields of
    [snetio] the program reads these two. *)
Record snetio : Type := {
  bytes_sent : Z;
  bytes_recv : Z
}.

(** The dict [{"sent": ..., "recv": ...}] that [_read_counters] builds. *)
Record counters : Type := {
  sent : Z;
  recv : Z
}.

(** The dict that [sample] returns, key by key. *)
Record sample_dict : Type := {
  iface_ : string;  (* the key "iface" *)
  interval : float;
  sent_Bps : float;
  recv_Bps : float;
  sent_ema_Bps : float;
  recv_ema_Bps : float;
  ema_enabled : bool;
  ema_alpha : float;
  total_sent_B : Z;
  total_recv_B : Z;
  uptime : float;
  timestamp : float
}.

Module TrafficCollector.

(** The attributes of a [TrafficCollector]. *)
Record t : Type := {
  iface : string;
  use_ema : bool;
  alpha : float;
  start_time : float;
  last_time : float;
  start_counters : counters;
  prev_counters : counters;
  sent_ema : float;
  recv_ema : float;
  ema_initialized : bool
}.

(** [sum(f(c) for c in counters.values())] *)
Definition sum_values (f : snetio -> Z) (nics : gmap string snetio) : Z :=
  map_fold (fun _ c acc => f c + acc) 0 nics.

(** [_read_counters]; [nics] is what [psutil.net_io_counters(pernic=True)]
    returns at this call. *)
Definition _read_counters (iface : string) (nics : gmap string snetio)
  : result counters :=
  if String.eqb iface "all" then
    Returned {| sent := sum_values bytes_sent nics;
                recv := sum_values bytes_recv nics |}
  else
    match nics !! iface with
    | None => Raised (ValueError ("Interface '" +:+ iface +:+ "' not found"))
    | Some c => Returned {| sent := bytes_sent c; recv := bytes_recv c |}
    end.

(** [__init__].  The constructor asks the operating system twice, once for
    the emptiness test ([nics0]) and once inside [_read_counters] ([nics]);
    [now] is the reading of [time.time()] between the two. *)
Definition __init__ (iface : string) (use_ema : bool) (alpha : float)
    (nics0 : gmap string snetio) (now : float) (nics : gmap string snetio)
  : result t :=
  if decide (nics0 = ∅) then Raised (RuntimeError "No network interfaces found")
  else
    start ← _read_counters iface nics;
    mret {| iface := iface;
            use_ema := use_ema;
            alpha := alpha;
            start_time := now;
            last_time := now;
            start_counters := start;
            prev_counters := start;
            sent_ema := 0;
            recv_ema := 0;
            ema_initialized := false |}.

(** [int / float]: the [int] is converted first. *)
Definition int_truediv (z : Z) (d : float) : result float :=
  f ← float_of_int z;
  truediv f d.

(** [sample]; [now] is the reading of [time.time()] and [nics] the
    interface table at this call.  Returns the dict and the collector as the
    call leaves it.  The handler of [ValueError] and [KeyError] prints
    "Network interface lost. Exiting." and calls [sys.exit(1)]. *)
Definition sample (self : t) (now : float) (nics : gmap string snetio)
  : result (sample_dict * t) :=
  let interval := py_max (now - last_time self)%float 0.01%float in
  current ←
    match _read_counters (iface self) nics with
    | Raised (ValueError _) | Raised (KeyError _) => Raised (SystemExit 1)
    | r => r
    end;
  sent_rate ← int_truediv (sent current - sent (prev_counters self)) interval;
  recv_rate ← int_truediv (recv current - recv (prev_counters self)) interval;
  let '(sent_ema', recv_ema', ema_initialized') :=
    if use_ema self then
      if negb (ema_initialized self) then (sent_rate, recv_rate, true)
      else
        ((alpha self * sent_rate + (1 - alpha self) * sent_ema self)%float,
         (alpha self * recv_rate + (1 - alpha self) * recv_ema self)%float,
         ema_initialized self)
    else (sent_rate, recv_rate, ema_initialized self) in
  let total_sent := sent current - sent (start_counters self) in
  let total_recv := recv current - recv (start_counters self) in
  mret ({| iface_ := iface self;
           interval := interval;
           sent_Bps := sent_rate;
           recv_Bps := recv_rate;
           sent_ema_Bps := sent_ema';
           recv_ema_Bps := recv_ema';
           ema_enabled := use_ema self;
           ema_alpha := alpha self;
           total_sent_B := total_sent;
           total_recv_B := total_recv;
           uptime := (now - start_time self)%float;
           timestamp := now |},
        {| iface := iface self;
           use_ema := use_ema self;
           alpha := alpha self;
           start_time := start_time self;
           last_time := now;
           start_counters := start_counters self;
           prev_counters := current;
           sent_ema := sent_ema';
           recv_ema := recv_ema';
           ema_initialized := ema_initialized' |}).

(** A run of [sample] calls, one per element of [ticks] (the clock reading
    and the interface table of each call), stopping at the first call that
    raises.  Returns the dicts in order and the collector after the last
    call. *)
Fixpoint samples (self : t) (ticks : list (float * gmap string snetio))
  : result (list sample_dict * t) :=
  match ticks with
  | [] => mret ([], self)
  | (now, nics) :: ticks' =>
      '(d, self') ← sample self now nics;
      '(ds, self'') ← samples self' ticks';
      mret (d :: ds, self'')
  end.

End TrafficCollector.

(** ** RENDERERS *)

Module AnsiRenderer.

(** The attributes of an [AnsiRenderer]. *)
Record t : Type := {
  view : string;
  max_sent : float;
  max_recv : float;
  bar_width : Z
}.

Definition __init__ (view : string) : t :=
  {| view := view; max_sent := 1; max_recv := 1; bar_width := 50 |}.

(** The local [filled] of [_bar]: [int(ratio * self.bar_width)]. *)
Definition _bar_filled (self : t) (value max_value : float) : result Z :=
  q ← truediv value max_value;
  let ratio := py_min q 1 in
  w ← float_of_int (bar_width self);
  int_of_float (ratio * w)%float.

Definition _bar (self : t) (value max_value : float) : result string :=
  filled ← _bar_filled self value max_value;
  full ← py_str_mul "█" filled;
  blank ← py_str_mul " " (bar_width self - filled);
  mret (full +:+ blank).

(** The metrics that drive the two bars. *)
Definition bar_metrics (self : t) (d : sample_dict) : float * float :=
  if String.eqb (view self) "raw" then (sent_Bps d, recv_Bps d)
  else (sent_ema_Bps d, recv_ema_Bps d).

(** The renderer's state after the two assignments to [self.max_sent] and
    [self.max_recv] in [render]. *)
Definition update_max (self : t) (d : sample_dict) : t :=
  let '(bar_sent, bar_recv) := bar_metrics self d in
  {| view := view self;
     max_sent := py_max (max_sent self) bar_sent;
     max_recv := py_max (max_recv self) bar_recv;
     bar_width := bar_width self |}.

(** [render], as far as the renderer's state and the two bars of the
    "Traffic Level" block go: the renderer after the call, and the OUT and
    IN bars, or what [_bar] raises.  The text around the bars (header,
    speeds, totals, footer) is not modelled. *)
Definition render (self : t) (d : sample_dict) : result (t * (string * string)) :=
  let '(bar_sent, bar_recv) := bar_metrics self d in
  let self' := update_max self d in
  out_bar ← _bar self' bar_sent (max_sent self');
  in_bar ← _bar self' bar_recv (max_recv self');
  mret (self', (out_bar, in_bar)).

(** The renderer after each call of a sequence of [render] calls. *)
Fixpoint states (self : t) (ds : list sample_dict) : list t :=
  match ds with
  | [] => []
  | d :: ds' =>
      let self' := update_max self d in
      self' :: states self' ds'
  end.

End AnsiRenderer.

(** ** CLI *)

(** How the loop of [main] ends, as far as the inputs given to it reach:
    by [break], by an exception that nothing catches, or not yet, with the
    collector, the renderer and the counter [i] as they are at the head of
    the next iteration. *)
Inductive ending (R : Type) : Type :=
| Break
| Uncaught (e : exn)
| Running (collector : TrafficCollector.t) (renderer : R) (i : Z).
Arguments Break {R}.
Arguments Uncaught {R} e.
Arguments Running {R} collector renderer i.

Section Driver.

(** The renderer is any object with a [render] method; the loop sees its
    state and whether the call raised.  [time_sleep] is [time.sleep] of the
    standard library, which returns after the delay or raises (on a negative
    delay, for one). *)
Context {R : Type} (render : R -> sample_dict -> result R).
Context (time_sleep : float -> result unit).

(** The [while True] loop of [main].  [ticks] holds, for each iteration
    that the environment is watched for, the clock reading and the interface
    table that [collector.sample()] sees.  Returns the dicts that [sample]
    returned, in order, and how the loop ended.  A [KeyboardInterrupt] is
    not modelled. *)
Fixpoint main_loop (collector : TrafficCollector.t) (renderer : R)
    (iterations : option Z) (interval : float) (i : Z)
    (ticks : list (float * gmap string snetio))
  : list sample_dict * ending R :=
  match ticks with
  | [] => ([], Running collector renderer i)
  | (now, nics) :: ticks' =>
      match TrafficCollector.sample collector now nics with
      | Raised e => ([], Uncaught e)
      | Returned (data, collector') =>
          match render renderer data with
          | Raised e => ([data], Uncaught e)
          | Returned renderer' =>
              let i' := i + 1 in
              if match iterations with
                 | Some n => n <=? i'
                 | None => false
                 end
              then ([data], Break)
              else
                match time_sleep interval with
                | Raised e => ([data], Uncaught e)
                | Returned _ =>
                    let '(ds, e) :=
                      main_loop collector' renderer' iterations interval i' ticks' in
                    (data :: ds, e)
                end
          end
      end
  end.

(** The options of the command line that [main] reads after parsing. *)
Record args : Type := {
  arg_iface : string;
  arg_interval : float;
  arg_once : bool;
  arg_count : option Z;
  arg_no_ema : bool;
  arg_ema_alpha : float
}.

(** [main] after [parse_args]; [renderer] is the renderer that the options
    [--json], [--plain] and [--view] select.  [nics0], [now] and [nics] are
    what the constructor of the collector reads.  The exit on a bad
    [--ema-alpha] comes after the message "EMA alpha must be between 0 and
    1". *)
Definition main (a : args) (renderer : R)
    (nics0 : gmap string snetio) (now : float) (nics : gmap string snetio)
    (ticks : list (float * gmap string snetio))
  : list sample_dict * ending R :=
  let use_ema := negb (arg_no_ema a) in
  if negb ((0 <? arg_ema_alpha a)%float && (arg_ema_alpha a <=? 1)%float)
  then ([], Uncaught (SystemExit 1))
  else
    match TrafficCollector.__init__ (arg_iface a) use_ema (arg_ema_alpha a)
            nics0 now nics with
    | Raised e => ([], Uncaught e)
    | Returned collector =>
        let iterations := if arg_once a then Some 1 else arg_count a in
        main_loop collector renderer iterations (arg_interval a) 0 ticks
    end.

End Driver.

(** ** Vocabulary of the properties *)

(** Two collectors with the same baseline and configuration. *)
Definition same_setup (c1 c2 : TrafficCollector.t) : Prop :=
  TrafficCollector.start_counters c2 = TrafficCollector.start_counters c1 /\
  TrafficCollector.start_time c2 = TrafficCollector.start_time c1 /\
  TrafficCollector.iface c2 = TrafficCollector.iface c1 /\
  TrafficCollector.use_ema c2 = TrafficCollector.use_ema c1 /\
  TrafficCollector.alpha c2 = TrafficCollector.alpha c1.

(** The two maxima of a renderer are floats other than NaN. *)
Definition maxima_ok (self : AnsiRenderer.t) : Prop :=
  is_nan (AnsiRenderer.max_sent self) = false /\
  is_nan (AnsiRenderer.max_recv self) = false.

(** The two maxima of a renderer are above zero. *)
Definition maxima_pos (self : AnsiRenderer.t) : Prop :=
  (0 <? AnsiRenderer.max_sent self)%float = true /\
  (0 <? AnsiRenderer.max_recv self)%float = true.

(** ** Concrete inputs

    Interface tables, a collector and a run, for the examples below. *)

Module Fixture.

Definition nic (s r : Z) : snetio := {| bytes_sent := s; bytes_recv := r |}.

Definition nics_t0 : gmap string snetio :=
  <["eth0" := nic 0 0]> (<["lo" := nic 7 7]> ∅).
Definition nics_t1 : gmap string snetio :=
  <["eth0" := nic 1000 2000]> (<["lo" := nic 7 9]> ∅).
Definition nics_t2 : gmap string snetio :=
  <["eth0" := nic 1500 2600]> (<["lo" := nic 8 9]> ∅).
(** [eth0] has gone. *)
Definition nics_lo : gmap string snetio := <["lo" := nic 8 9]> ∅.

Definition ticks : list (float * gmap string snetio) :=
  [(101%float, nics_t1); (102%float, nics_t2); (102.005%float, nics_t2)].

(** The collector that [__init__ "eth0" use_ema 0.2] builds at time 100 on
    [nics_t0]. *)
Definition collector (use_ema : bool) : TrafficCollector.t :=
  {| TrafficCollector.iface := "eth0";
     TrafficCollector.use_ema := use_ema;
     TrafficCollector.alpha := 0.2;
     TrafficCollector.start_time := 100;
     TrafficCollector.last_time := 100;
     TrafficCollector.start_counters := {| sent := 0; recv := 0 |};
     TrafficCollector.prev_counters := {| sent := 0; recv := 0 |};
     TrafficCollector.sent_ema := 0;
     TrafficCollector.recv_ema := 0;
     TrafficCollector.ema_initialized := false |}.

(** The results of [samples (collector true) ticks] and of
    [samples (collector false) ticks]. *)
Definition run_ema : list sample_dict * TrafficCollector.t :=
  Eval vm_compute in
    match TrafficCollector.samples (collector true) ticks with
    | Returned r => r
    | Raised _ => ([], collector true)
    end.

Definition run_raw : list sample_dict * TrafficCollector.t :=
  Eval vm_compute in
    match TrafficCollector.samples (collector false) ticks with
    | Returned r => r
    | Raised _ => ([], collector false)
    end.

(** The collector that [__init__ "all" true 0.2] builds at time 100 on
    [nics_t0]. *)
Definition collector_all : TrafficCollector.t :=
  {| TrafficCollector.iface := "all";
     TrafficCollector.use_ema := true;
     TrafficCollector.alpha := 0.2;
     TrafficCollector.start_time := 100;
     TrafficCollector.last_time := 100;
     TrafficCollector.start_counters := {| sent := 7; recv := 7 |};
     TrafficCollector.prev_counters := {| sent := 7; recv := 7 |};
     TrafficCollector.sent_ema := 0;
     TrafficCollector.recv_ema := 0;
     TrafficCollector.ema_initialized := false |}.



(** A dict whose four rates are [x]. *)
Definition with_rate (x : float) : sample_dict :=
  {| iface_ := "all"; interval := 1;
     sent_Bps := x; recv_Bps := x; sent_ema_Bps := x; recv_ema_Bps := x;
     ema_enabled := true; ema_alpha := 0.2;
     total_sent_B := 0; total_recv_B := 0; uptime := 1; timestamp := 1 |}.

(** The options [--iface wlan0], an interface that no table above has. *)
Definition args_wlan0 : args :=
  {| arg_iface := "wlan0"; arg_interval := 1; arg_once := false;
     arg_count := None; arg_no_ema := false; arg_ema_alpha := 0.2 |}.

(** A collector with the smoothing factor 1 after a first call, and its
    second call. *)
Definition collector_alpha_1 : TrafficCollector.t :=
  {| TrafficCollector.iface := "eth0";
     TrafficCollector.use_ema := true;
     TrafficCollector.alpha := 1;
     TrafficCollector.start_time := 100;
     TrafficCollector.last_time := 101;
     TrafficCollector.start_counters := {| sent := 0; recv := 0 |};
     TrafficCollector.prev_counters := {| sent := 1000; recv := 2000 |};
     TrafficCollector.sent_ema := 1000;
     TrafficCollector.recv_ema := 2000;
     TrafficCollector.ema_initialized := true |}.

Definition call_alpha_1 : sample_dict * TrafficCollector.t :=
  Eval vm_compute in
    match TrafficCollector.sample collector_alpha_1 102 nics_t2 with
    | Returned r => r
    | Raised _ =>
        (Build_sample_dict "" 0 0 0 0 0 false 0 0 0 0 0, collector_alpha_1)
    end.
Definition dict_alpha_1 : sample_dict := call_alpha_1.1.
Definition after_alpha_1 : TrafficCollector.t := call_alpha_1.2.

(** The options [--ema-alpha 0]. *)
Definition args_alpha_0 : args :=
  {| arg_iface := "eth0"; arg_interval := 1; arg_once := false;
     arg_count := None; arg_no_ema := false; arg_ema_alpha := 0 |}.

(** A renderer without state that never raises, and a sleep that returns. *)
Definition render_unit (_ : unit) (_ : sample_dict) : result unit := Returned tt.
Definition sleep_ok (_ : float) : result unit := Returned tt.

(** The first call of that run, alone. *)
Definition tick1 : sample_dict * TrafficCollector.t :=
  Eval vm_compute in
    match TrafficCollector.sample (collector true) 101 nics_t1 with
    | Returned r => r
    | Raised _ =>
        (Build_sample_dict "" 0 0 0 0 0 false 0 0 0 0 0, collector true)
    end.
Definition dict_tick1 : sample_dict := tick1.1.
Definition after_tick1 : TrafficCollector.t := tick1.2.

(** The call after it, one second later, when [eth0] has been reset in
    between: its sent counter has gone down, the received one up. *)
Definition nics_reset : gmap string snetio :=
  <["eth0" := nic 400 2600]> (<["lo" := nic 8 9]> ∅).

Definition call_reset : sample_dict * TrafficCollector.t :=
  Eval vm_compute in
    match TrafficCollector.sample after_tick1 102 nics_reset with
    | Returned r => r
    | Raised _ =>
        (Build_sample_dict "" 0 0 0 0 0 false 0 0 0 0 0, collector true)
    end.
Definition dict_reset : sample_dict := call_reset.1.
Definition after_reset : TrafficCollector.t := call_reset.2.

End Fixture.

(** * Properties *)

(** ** The result monad *)

Lemma bind_Returned {A B : Type} (m : result A) (k : A -> result B) (b : B) :
  (x ← m; k x) = Returned b ->
  exists a, m = Returned a /\ k a = Returned b.
Proof. destruct m as [a|e]; simpl; [eauto | discriminate]. Qed.

(** ** The collector, one call *)

Section SampleStep.
Import TrafficCollector.

(** What a call of [sample] that returns has read and computed. *)
Lemma sample_Returned self now nics d self' :
  sample self now nics = Returned (d, self') ->
  exists current sent_rate recv_rate,
    _read_counters (iface self) nics = Returned current /\
    int_truediv (sent current - sent (prev_counters self))
      (py_max (now - last_time self) 0.01) = Returned sent_rate /\
    int_truediv (recv current - recv (prev_counters self))
      (py_max (now - last_time self) 0.01) = Returned recv_rate /\
    interval d = py_max (now - last_time self) 0.01 /\
    sent_Bps d = sent_rate /\ recv_Bps d = recv_rate /\
    total_sent_B d = sent current - sent (start_counters self) /\
    total_recv_B d = recv current - recv (start_counters self) /\
    prev_counters self' = current /\ last_time self' = now.
Proof.
  intros H. generalize H. unfold sample at 1.
  intros H0. apply bind_Returned in H0 as (current & Hread & H0).
  apply bind_Returned in H0 as (sent_rate & Hs & H0).
  apply bind_Returned in H0 as (recv_rate & Hr & H0).
  exists current, sent_rate, recv_rate.
  assert (Hc : _read_counters (iface self) nics = Returned current).
  { destruct (_read_counters (iface self) nics) as [c|[]]; congruence. }
  destruct (use_ema self), (negb (ema_initialized self));
    simpl in H0; injection H0 as <- <-; simpl; auto 12.
Qed.

(** A call of [sample] leaves the baseline and the configuration alone. *)
Lemma sample_frame self now nics d self' :
  sample self now nics = Returned (d, self') ->
  start_counters self' = start_counters self /\
  start_time self' = start_time self /\
  iface self' = iface self /\
  use_ema self' = use_ema self /\
  alpha self' = alpha self.
Proof.
  unfold sample. intros H.
  apply bind_Returned in H as (current & _ & H).
  apply bind_Returned in H as (sent_rate & _ & H).
  apply bind_Returned in H as (recv_rate & _ & H).
  destruct (use_ema self), (negb (ema_initialized self));
    simpl in H; injection H as <- <-; simpl; auto.
Qed.

(** The smoothed rates of one call, by the three cases of the code. *)
Lemma sample_ema self now nics d self' :
  sample self now nics = Returned (d, self') ->
  sent_ema self' = sent_ema_Bps d /\
  recv_ema self' = recv_ema_Bps d /\
  (use_ema self = false ->
     sent_ema_Bps d = sent_Bps d /\ recv_ema_Bps d = recv_Bps d) /\
  (use_ema self = true -> ema_initialized self = false ->
     sent_ema_Bps d = sent_Bps d /\ recv_ema_Bps d = recv_Bps d) /\
  (use_ema self = true -> ema_initialized self = true ->
     sent_ema_Bps d
     = (alpha self * sent_Bps d + (1 - alpha self) * sent_ema self)%float /\
     recv_ema_Bps d
     = (alpha self * recv_Bps d + (1 - alpha self) * recv_ema self)%float) /\
  (use_ema self = true -> ema_initialized self' = true).
Proof.
  unfold sample. intros H.
  apply bind_Returned in H as (current & _ & H).
  apply bind_Returned in H as (sent_rate & _ & H).
  apply bind_Returned in H as (recv_rate & _ & H).
  destruct (use_ema self), (ema_initialized self);
    simpl in H; injection H as <- <-; simpl;
    repeat split; intros; try discriminate; auto.
Qed.

End SampleStep.

(** ** The collector, a run of calls *)

Section SampleRun.
Import TrafficCollector.

Lemma same_setup_refl c : same_setup c c.
Proof. repeat split. Qed.

Lemma same_setup_trans c1 c2 c3 :
  same_setup c1 c2 -> same_setup c2 c3 -> same_setup c1 c3.
Proof. unfold same_setup. intuition congruence. Qed.

Lemma samples_nil c ds c' :
  samples c [] = Returned (ds, c') -> ds = [] /\ c' = c.
Proof. simpl. intros [= <- <-]. auto. Qed.

Lemma samples_cons c now nics ticks ds c' :
  samples c ((now, nics) :: ticks) = Returned (ds, c') ->
  exists d c1 ds',
    sample c now nics = Returned (d, c1) /\
    samples c1 ticks = Returned (ds', c') /\
    ds = d :: ds'.
Proof.
  simpl. intros H.
  apply bind_Returned in H as ([d c1] & Hd & H).
  apply bind_Returned in H as ([ds' c2] & Hds & H).
  injection H as <- <-. eauto 6.
Qed.

Lemma samples_length c ticks : forall ds c',
  samples c ticks = Returned (ds, c') -> length ds = length ticks.
Proof.
  revert c. induction ticks as [|[now nics] ticks IH]; intros c ds c' H.
  - apply samples_nil in H as [-> _]. reflexivity.
  - apply samples_cons in H as (d & c1 & ds' & _ & H & ->).
    simpl. f_equal. eauto.
Qed.

Lemma samples_same_setup c ticks : forall ds c',
  samples c ticks = Returned (ds, c') -> same_setup c c'.
Proof.
  revert c. induction ticks as [|[now nics] ticks IH]; intros c ds c' H.
  - apply samples_nil in H as [_ ->]. apply same_setup_refl.
  - apply samples_cons in H as (d & c1 & ds' & Hd & H & ->).
    eapply same_setup_trans; [|eapply IH; eauto].
    apply sample_frame in Hd. exact Hd.
Qed.

(** The [i]-th dict of a run comes from a call of [sample] on the [i]-th
    tick, by a collector that has the setup of the first. *)
Lemma samples_lookup c ticks : forall ds c' i d,
  samples c ticks = Returned (ds, c') ->
  ds !! i = Some d ->
  exists now nics ci ci',
    ticks !! i = Some (now, nics) /\
    same_setup c ci /\
    sample ci now nics = Returned (d, ci').
Proof.
  revert c. induction ticks as [|[now nics] ticks IH]; intros c ds c' i d H Hi.
  - apply samples_nil in H as [-> _]. discriminate.
  - apply samples_cons in H as (d0 & c1 & ds' & Hd & H & ->).
    destruct i as [|i]; simpl in Hi.
    + injection Hi as ->. exists now, nics, c, c1.
      repeat split; auto.
    + destruct (IH _ _ _ _ _ H Hi) as (now' & nics' & ci & ci' & ? & ? & ?).
      exists now', nics', ci, ci'. split; [assumption|]. split; [|assumption].
      eapply same_setup_trans; [|eassumption].
      apply sample_frame in Hd. exact Hd.
Qed.

(** From an initialised average on, every dict of a run obeys the
    recurrence with respect to the average before it. *)
Lemma samples_ema_chain c ticks : forall ds c',
  use_ema c = true -> ema_initialized c = true ->
  samples c ticks = Returned (ds, c') ->
  (forall d, ds !! 0%nat = Some d ->
     sent_ema_Bps d
     = (alpha c * sent_Bps d + (1 - alpha c) * sent_ema c)%float /\
     recv_ema_Bps d
     = (alpha c * recv_Bps d + (1 - alpha c) * recv_ema c)%float) /\
  (forall i d d', ds !! i = Some d -> ds !! S i = Some d' ->
     sent_ema_Bps d'
     = (alpha c * sent_Bps d' + (1 - alpha c) * sent_ema_Bps d)%float /\
     recv_ema_Bps d'
     = (alpha c * recv_Bps d' + (1 - alpha c) * recv_ema_Bps d)%float).
Proof.
  revert c. induction ticks as [|[now nics] ticks IH]; intros c ds c' Hu Hi H.
  - apply samples_nil in H as [-> _]. split; intros; discriminate.
  - apply samples_cons in H as (d0 & c1 & ds' & Hd & H & ->).
    destruct (sample_frame _ _ _ _ _ Hd) as (_ & _ & _ & Hu1 & Ha1).
    destruct (sample_ema _ _ _ _ _ Hd) as (Hs & Hr & _ & _ & Hrec & Hinit).
    specialize (Hrec Hu Hi). specialize (Hinit Hu).
    assert (Hu1' : use_ema c1 = true) by congruence.
    destruct (IH c1 ds' c' Hu1' Hinit H) as [IH0 IHS].
    rewrite Ha1, Hs, Hr in IH0. rewrite Ha1 in IHS.
    split.
    + intros d [= <-]. exact Hrec.
    + intros [|i] d d' Hd1 Hd2; simpl in Hd1, Hd2.
      * injection Hd1 as <-. apply IH0. exact Hd2.
      * eapply IHS; eassumption.
Qed.

End SampleRun.

(** ** Smoothing *)

Section Smoothing.
Import TrafficCollector.

(** C1.  With [use_ema] true, over any run of [sample] calls from
    construction on, the smoothed rate of the first dict is its
    instantaneous rate, and the smoothed rate of every later dict is
    [alpha * r + (1 - alpha) * s] for its instantaneous rate [r] and the
    smoothed rate [s] of the dict before it, for sent and recv alike and
    for every [alpha] (those of (0,1] among them). *)
Theorem ema_recurrence iface a nics0 t0 nics c ticks ds c' :
  __init__ iface true a nics0 t0 nics = Returned c ->
  samples c ticks = Returned (ds, c') ->
  (forall d, ds !! 0%nat = Some d ->
     sent_ema_Bps d = sent_Bps d /\ recv_ema_Bps d = recv_Bps d) /\
  (forall i d d', ds !! i = Some d -> ds !! S i = Some d' ->
     sent_ema_Bps d' = (a * sent_Bps d' + (1 - a) * sent_ema_Bps d)%float /\
     recv_ema_Bps d' = (a * recv_Bps d' + (1 - a) * recv_ema_Bps d)%float).
Proof.
  intros Hinit Hrun.
  assert (Hc : use_ema c = true /\ ema_initialized c = false /\ alpha c = a).
  { unfold __init__ in Hinit. destruct (decide (nics0 = ∅)); [discriminate|].
    apply bind_Returned in Hinit as (start & _ & [= <-]). auto. }
  destruct Hc as (Hu & Hi & Ha).
  destruct ticks as [|[now tab] ticks].
  - apply samples_nil in Hrun as [-> _]. split; intros; discriminate.
  - apply samples_cons in Hrun as (d0 & c1 & ds' & Hd & Hrun & ->).
    destruct (sample_frame _ _ _ _ _ Hd) as (_ & _ & _ & Hu1 & Ha1).
    destruct (sample_ema _ _ _ _ _ Hd) as (Hs & Hr & _ & Hseed & _ & Hinit1).
    specialize (Hseed Hu Hi). specialize (Hinit1 Hu).
    assert (Hu1' : use_ema c1 = true) by congruence.
    destruct (samples_ema_chain c1 ticks ds' c' Hu1' Hinit1 Hrun) as [H0 HS].
    rewrite Ha1, Ha, Hs, Hr in H0. rewrite Ha1, Ha in HS.
    split.
    + intros d [= <-]. exact Hseed.
    + intros [|i] d d' Hd1 Hd2; simpl in Hd1, Hd2.
      * injection Hd1 as <-. apply H0. exact Hd2.
      * eapply HS; eassumption.
Qed.

Lemma ema_recurrence_witness :
  (forall d, (Fixture.run_ema).1 !! 0%nat = Some d ->
     sent_ema_Bps d = sent_Bps d /\ recv_ema_Bps d = recv_Bps d) /\
  (forall i d d',
     (Fixture.run_ema).1 !! i = Some d -> (Fixture.run_ema).1 !! S i = Some d' ->
     sent_ema_Bps d' = (0.2 * sent_Bps d' + (1 - 0.2) * sent_ema_Bps d)%float /\
     recv_ema_Bps d' = (0.2 * recv_Bps d' + (1 - 0.2) * recv_ema_Bps d)%float).
Proof.
  apply (ema_recurrence "eth0" 0.2 Fixture.nics_t0 100 Fixture.nics_t0
           (Fixture.collector true) Fixture.ticks
           (Fixture.run_ema).1 (Fixture.run_ema).2).
  - vm_compute. reflexivity.
  - vm_compute. reflexivity.
Defined.

(** C7.  With [use_ema] false, every dict of a run carries its
    instantaneous rates in the smoothed fields, for both directions, and
    after every call the collector's [sent_ema] and [recv_ema] hold the
    instantaneous rates of that call. *)
Theorem ema_disabled_pass_through c ticks ds c' :
  use_ema c = false ->
  samples c ticks = Returned (ds, c') ->
  (forall i d, ds !! i = Some d ->
     sent_ema_Bps d = sent_Bps d /\ recv_ema_Bps d = recv_Bps d /\
     exists now nics ci ci',
       ticks !! i = Some (now, nics) /\
       sample ci now nics = Returned (d, ci') /\
       sent_ema ci' = sent_Bps d /\ recv_ema ci' = recv_Bps d) /\
  (forall d, last ds = Some d ->
     sent_ema c' = sent_Bps d /\ recv_ema c' = recv_Bps d).
Proof.
  intros Hu Hrun. split.
  - intros i d Hi.
    destruct (samples_lookup _ _ _ _ _ _ Hrun Hi)
      as (now & nics & ci & ci' & Ht & (_ & _ & _ & Hui & _) & Hd).
    destruct (sample_ema _ _ _ _ _ Hd) as (Hs & Hr & Hoff & _).
    destruct Hoff as [Hs' Hr']; [congruence|].
    repeat split; auto.
    exists now, nics, ci, ci'. repeat split; congruence.
  - revert c ds Hu Hrun.
    induction ticks as [|[now nics] ticks IH]; intros c ds Hu Hrun d Hl.
    + apply samples_nil in Hrun as [-> _]. discriminate.
    + apply samples_cons in Hrun as (d0 & c1 & ds' & Hd & Hrun & ->).
      destruct (sample_frame _ _ _ _ _ Hd) as (_ & _ & _ & Hu1 & _).
      destruct ds' as [|d1 ds'].
      * destruct ticks as [|[now' nics'] ticks].
        -- apply samples_nil in Hrun as [_ ->]. simpl in Hl.
           injection Hl as <-.
           destruct (sample_ema _ _ _ _ _ Hd) as (Hs & Hr & Hoff & _).
           destruct Hoff as [Hs' Hr']; [assumption|]. split; congruence.
        -- apply samples_length in Hrun. discriminate.
      * apply (IH c1 (d1 :: ds')); [congruence | assumption |].
        rewrite last_cons_cons in Hl. exact Hl.
Qed.

Lemma ema_disabled_pass_through_witness :
  (forall i d, (Fixture.run_raw).1 !! i = Some d ->
     sent_ema_Bps d = sent_Bps d /\ recv_ema_Bps d = recv_Bps d /\
     exists now nics ci ci',
       Fixture.ticks !! i = Some (now, nics) /\
       sample ci now nics = Returned (d, ci') /\
       sent_ema ci' = sent_Bps d /\ recv_ema ci' = recv_Bps d) /\
  (forall d, last (Fixture.run_raw).1 = Some d ->
     sent_ema (Fixture.run_raw).2 = sent_Bps d /\
     recv_ema (Fixture.run_raw).2 = recv_Bps d).
Proof.
  apply (ema_disabled_pass_through (Fixture.collector false) Fixture.ticks).
  - reflexivity.
  - vm_compute. reflexivity.
Defined.

End Smoothing.

(** ** Totals and the state a call leaves *)

Section Totals.
Import TrafficCollector.

Lemma init_Returned iface ue a nics0 t0 nics c :
  __init__ iface ue a nics0 t0 nics = Returned c ->
  nics0 <> ∅ /\
  _read_counters iface nics = Returned (start_counters c) /\
  prev_counters c = start_counters c /\
  TrafficCollector.iface c = iface /\ use_ema c = ue /\ alpha c = a /\
  start_time c = t0 /\ last_time c = t0 /\
  ema_initialized c = false.
Proof.
  unfold __init__. destruct (decide (nics0 = ∅)) as [|Hne]; [discriminate|].
  intros H. apply bind_Returned in H as (start & Hread & [= <-]).
  simpl. auto 10.
Qed.

(** C3.  Over any run of [sample] calls from construction on, whatever the
    number of calls, their spacing and the counters in between, the totals of
    every dict (the last one among them) are the counters read at that call
    minus the counters read at construction. *)
Theorem totals_telescope iface ue a nics0 t0 nics_init c ticks ds c' :
  __init__ iface ue a nics0 t0 nics_init = Returned c ->
  samples c ticks = Returned (ds, c') ->
  length ds = length ticks /\
  (forall i d, ds !! i = Some d ->
     exists now nics start current,
       ticks !! i = Some (now, nics) /\
       _read_counters iface nics_init = Returned start /\
       _read_counters iface nics = Returned current /\
       total_sent_B d = sent current - sent start /\
       total_recv_B d = recv current - recv start).
Proof.
  intros Hinit Hrun.
  apply init_Returned in Hinit as (_ & Hstart & _ & Hif & _).
  split; [eapply samples_length; eassumption|].
  intros i d Hi.
  destruct (samples_lookup _ _ _ _ _ _ Hrun Hi)
    as (now & nics & ci & ci' & Ht & (Hsc & _ & Hifi & _) & Hd).
  apply sample_Returned in Hd
    as (current & sr & rr & Hread & _ & _ & _ & _ & _ & Hts & Htr & _ & _).
  exists now, nics, (start_counters c), current.
  rewrite Hifi, Hif in Hread. rewrite Hsc in Hts, Htr. auto.
Qed.

Lemma totals_telescope_witness :
  length (Fixture.run_ema).1 = length Fixture.ticks /\
  (forall i d, (Fixture.run_ema).1 !! i = Some d ->
     exists now nics start current,
       Fixture.ticks !! i = Some (now, nics) /\
       _read_counters "eth0" Fixture.nics_t0 = Returned start /\
       _read_counters "eth0" nics = Returned current /\
       total_sent_B d = sent current - sent start /\
       total_recv_B d = recv current - recv start).
Proof.
  apply (totals_telescope "eth0" true 0.2 Fixture.nics_t0 100 Fixture.nics_t0
           (Fixture.collector true) Fixture.ticks
           (Fixture.run_ema).1 (Fixture.run_ema).2).
  - vm_compute. reflexivity.
  - vm_compute. reflexivity.
Defined.

(** C9.  A call of [sample] that returns leaves [start_counters],
    [start_time], [iface], [use_ema] and [alpha] as they were, and sets
    [prev_counters] to the counters it has just read and [last_time] to its
    clock reading. *)
Theorem sample_state_update self now nics d self' :
  sample self now nics = Returned (d, self') ->
  start_counters self' = start_counters self /\
  start_time self' = start_time self /\
  iface self' = iface self /\
  use_ema self' = use_ema self /\
  alpha self' = alpha self /\
  _read_counters (iface self) nics = Returned (prev_counters self') /\
  last_time self' = now.
Proof.
  intros H.
  destruct (sample_frame _ _ _ _ _ H) as (H1 & H2 & H3 & H4 & H5).
  destruct (sample_Returned _ _ _ _ _ H)
    as (current & sr & rr & Hread & _ & _ & _ & _ & _ & _ & _ & Hp & Hl).
  repeat split; try assumption. congruence.
Qed.

Lemma sample_state_update_witness :
  start_counters Fixture.after_tick1 = start_counters (Fixture.collector true) /\
  start_time Fixture.after_tick1 = start_time (Fixture.collector true) /\
  iface Fixture.after_tick1 = iface (Fixture.collector true) /\
  use_ema Fixture.after_tick1 = use_ema (Fixture.collector true) /\
  alpha Fixture.after_tick1 = alpha (Fixture.collector true) /\
  _read_counters (iface (Fixture.collector true)) Fixture.nics_t1
  = Returned (prev_counters Fixture.after_tick1) /\
  last_time Fixture.after_tick1 = 101%float.
Proof.
  apply (sample_state_update (Fixture.collector true) 101 Fixture.nics_t1
           Fixture.dict_tick1 Fixture.after_tick1).
  vm_compute. reflexivity.
Defined.

(** The scenario of one second on [eth0]: from 0/0 to 1000/2000 bytes with
    the average off. *)
Example one_second_on_eth0 :
  sample (Fixture.collector false) 101 Fixture.nics_t1
  = Returned
      ({| iface_ := "eth0"; interval := 1;
          sent_Bps := 1000; recv_Bps := 2000;
          sent_ema_Bps := 1000; recv_ema_Bps := 2000;
          ema_enabled := false; ema_alpha := 0.2;
          total_sent_B := 1000; total_recv_B := 2000;
          uptime := 1; timestamp := 101 |},
       {| iface := "eth0"; use_ema := false; alpha := 0.2;
          start_time := 100; last_time := 101;
          start_counters := {| sent := 0; recv := 0 |};
          prev_counters := {| sent := 1000; recv := 2000 |};
          sent_ema := 1000; recv_ema := 2000;
          ema_initialized := false |}).
Proof. vm_compute. reflexivity. Qed.

End Totals.

(** ** Reading the counters, construction and the loss of the interface *)

Section Reading.
Import TrafficCollector.

Lemma sum_values_empty f : sum_values f ∅ = 0.
Proof. unfold sum_values. apply map_fold_empty. Qed.

Lemma sum_values_insert f (nics : gmap string snetio) name c :
  nics !! name = None ->
  sum_values f (<[name := c]> nics) = f c + sum_values f nics.
Proof.
  intros Hfresh. unfold sum_values.
  apply (map_fold_insert_L (fun _ c acc => f c + acc)); [|exact Hfresh].
  intros; lia.
Qed.

Lemma read_all nics :
  _read_counters "all" nics
  = Returned {| sent := sum_values bytes_sent nics;
                recv := sum_values bytes_recv nics |}.
Proof. reflexivity. Qed.

Lemma read_missing iface (nics : gmap string snetio) :
  iface <> "all" -> nics !! iface = None ->
  _read_counters iface nics
  = Raised (ValueError ("Interface '" +:+ iface +:+ "' not found")).
Proof.
  intros Hne Hnone. unfold _read_counters.
  destruct (String.eqb_spec iface "all") as [|_]; [contradiction|].
  rewrite Hnone. reflexivity.
Qed.

(** [_read_counters] raises nothing but its [ValueError]. *)
Lemma read_Raised iface nics e :
  _read_counters iface nics = Raised e ->
  iface <> "all" /\ nics !! iface = None /\
  e = ValueError ("Interface '" +:+ iface +:+ "' not found").
Proof.
  unfold _read_counters.
  destruct (String.eqb_spec iface "all") as [|Hne]; [discriminate|].
  destruct (nics !! iface); [discriminate|]. intros [= <-]. auto.
Qed.

(** [int / float] raises nothing but [OverflowError] and
    [ZeroDivisionError]. *)
Lemma int_truediv_Raised z x e :
  int_truediv z x = Raised e ->
  (exists msg, e = OverflowError msg) \/ (exists msg, e = ZeroDivisionError msg).
Proof.
  unfold int_truediv, float_of_int, truediv.
  destruct (is_infinity _); simpl; [intros [= <-]; eauto|].
  destruct (_ =? 0)%float; [intros [= <-]; eauto | discriminate].
Qed.

(** When [sample] exits, the read has failed. *)
Lemma sample_exit self now nics code :
  sample self now nics = Raised (SystemExit code) ->
  code = 1 /\ exists e, _read_counters (iface self) nics = Raised e.
Proof.
  unfold sample.
  destruct (_read_counters (iface self) nics) as [current|e] eqn:Hread.
  - simpl. intros H.
    destruct (int_truediv (sent current - _) _) as [sr|e1] eqn:H1; simpl in H.
    + destruct (int_truediv (recv current - _) _) as [rr|e2] eqn:H2; simpl in H.
      * destruct (use_ema self), (negb (ema_initialized self)); discriminate.
      * injection H as ->.
        apply int_truediv_Raised in H2 as [[? ?]|[? ?]]; discriminate.
    + injection H as ->.
      apply int_truediv_Raised in H1 as [[? ?]|[? ?]]; discriminate.
  - intros H. split; [|eauto].
    apply read_Raised in Hread as (_ & _ & ->). simpl in H. congruence.
Qed.

Lemma sample_lost self now nics msg :
  _read_counters (iface self) nics = Raised (ValueError msg) ->
  sample self now nics = Raised (SystemExit 1).
Proof. intros H. unfold sample. rewrite H. reflexivity. Qed.

(** C10.  Under the selector "all" the read returns for every interface
    table, the empty one included, and returns the sums of the two counters
    over the interfaces of the table (nothing for the empty table, one more
    summand for one more interface); it raises nothing, and a [sample] call
    of a collector with this selector does not exit, whatever the table. *)
Theorem all_selector_total self now nics :
  iface self = "all" ->
  _read_counters (iface self) nics
  = Returned {| sent := sum_values bytes_sent nics;
                recv := sum_values bytes_recv nics |} /\
  _read_counters (iface self) ∅ = Returned {| sent := 0; recv := 0 |} /\
  (forall name c, nics !! name = None ->
     sum_values bytes_sent (<[name := c]> nics)
     = bytes_sent c + sum_values bytes_sent nics /\
     sum_values bytes_recv (<[name := c]> nics)
     = bytes_recv c + sum_values bytes_recv nics) /\
  (forall code, sample self now nics <> Raised (SystemExit code)) /\
  (forall code, sample self now ∅ <> Raised (SystemExit code)).
Proof.
  intros Hall. rewrite Hall. repeat split.
  - intros; apply sum_values_insert; assumption.
  - intros; apply sum_values_insert; assumption.
  - intros code H. apply sample_exit in H as (_ & e & H).
    rewrite Hall, read_all in H. discriminate.
  - intros code H. apply sample_exit in H as (_ & e & H).
    rewrite Hall, read_all in H. discriminate.
Qed.

Lemma all_selector_total_witness :
  _read_counters (iface Fixture.collector_all) Fixture.nics_t1
  = Returned {| sent := sum_values bytes_sent Fixture.nics_t1;
                recv := sum_values bytes_recv Fixture.nics_t1 |} /\
  _read_counters (iface Fixture.collector_all) ∅
  = Returned {| sent := 0; recv := 0 |} /\
  (forall name c, Fixture.nics_t1 !! name = None ->
     sum_values bytes_sent (<[name := c]> Fixture.nics_t1)
     = bytes_sent c + sum_values bytes_sent Fixture.nics_t1 /\
     sum_values bytes_recv (<[name := c]> Fixture.nics_t1)
     = bytes_recv c + sum_values bytes_recv Fixture.nics_t1) /\
  (forall code,
     sample Fixture.collector_all 101 Fixture.nics_t1 <> Raised (SystemExit code)) /\
  (forall code, sample Fixture.collector_all 101 ∅ <> Raised (SystemExit code)).
Proof.
  apply (all_selector_total Fixture.collector_all 101 Fixture.nics_t1).
  reflexivity.
Defined.

End Reading.

(** ** Construction *)

Section Construction.
Import TrafficCollector.

Lemma init_empty iface ue a t0 nics :
  __init__ iface ue a ∅ t0 nics = Raised (RuntimeError "No network interfaces found").
Proof. unfold __init__. destruct (decide (∅ = ∅)); [reflexivity | contradiction]. Qed.

Lemma init_read_Raised iface ue a nics0 t0 nics e :
  nics0 <> ∅ ->
  _read_counters iface nics = Raised e ->
  __init__ iface ue a nics0 t0 nics = Raised e.
Proof.
  intros Hne Hread. unfold __init__.
  destruct (decide (nics0 = ∅)); [contradiction|]. rewrite Hread. reflexivity.
Qed.

(** C8.  Construction fails, and with it [main] before any dict is
    produced,
    - with the [RuntimeError] "No network interfaces found" when the
      operating system reports no interface at all;
    - with the [ValueError] of the read when the selector names an interface
      that the table does not have;
    and a construction that succeeds has an initial reading, which is both
    the baseline and the previous counters. *)
Theorem construction_fails {R : Type} (render : R -> sample_dict -> result R)
    (time_sleep : float -> result unit)
    (a : args) (renderer : R) iface ue alpha nics0 t0 nics ticks :
  (nics0 = ∅ ->
     __init__ iface ue alpha nics0 t0 nics
     = Raised (RuntimeError "No network interfaces found")) /\
  (nics0 <> ∅ -> iface <> "all" -> nics !! iface = None ->
     __init__ iface ue alpha nics0 t0 nics
     = Raised (ValueError ("Interface '" +:+ iface +:+ "' not found"))) /\
  (forall e, nics0 <> ∅ -> _read_counters iface nics = Raised e ->
     __init__ iface ue alpha nics0 t0 nics = Raised e) /\
  (forall c, __init__ iface ue alpha nics0 t0 nics = Returned c ->
     nics0 <> ∅ /\
     _read_counters iface nics = Returned (start_counters c) /\
     prev_counters c = start_counters c) /\
  (nics0 = ∅ \/ (arg_iface a <> "all" /\ nics !! arg_iface a = None) ->
     exists e,
       main render time_sleep a renderer nics0 t0 nics ticks = ([], Uncaught e)).
Proof.
  repeat split.
  - intros ->. apply init_empty.
  - intros Hne Hsel Hnone. apply init_read_Raised; [assumption|].
    apply read_missing; assumption.
  - intros e Hne Hread. apply init_read_Raised; assumption.
  - apply init_Returned in H. tauto.
  - apply init_Returned in H. tauto.
  - apply init_Returned in H. tauto.
  - intros Hbad. unfold main.
    destruct (negb _); [eauto|].
    destruct Hbad as [-> | [Hsel Hnone]].
    + rewrite init_empty. eauto.
    + destruct (decide (nics0 = ∅)) as [->|Hne].
      * rewrite init_empty. eauto.
      * rewrite (init_read_Raised _ _ _ _ _ _ _ Hne (read_missing _ _ Hsel Hnone)).
        eauto.
Qed.

Lemma construction_fails_witness :
  __init__ "all" true 0.2 ∅ 100 Fixture.nics_t0
  = Raised (RuntimeError "No network interfaces found") /\
  __init__ "wlan0" true 0.2 Fixture.nics_t0 100 Fixture.nics_t0
  = Raised (ValueError "Interface 'wlan0' not found") /\
  exists e,
    main Fixture.render_unit Fixture.sleep_ok Fixture.args_wlan0 tt
      Fixture.nics_t0 100 Fixture.nics_t0 Fixture.ticks
    = ([], Uncaught e).
Proof.
  split; [|split].
  - destruct (construction_fails Fixture.render_unit Fixture.sleep_ok
                Fixture.args_wlan0 tt "all" true 0.2 ∅ 100 Fixture.nics_t0 [])
      as (Hempty & _).
    apply Hempty. reflexivity.
  - destruct (construction_fails Fixture.render_unit Fixture.sleep_ok
                Fixture.args_wlan0 tt "wlan0" true 0.2
                Fixture.nics_t0 100 Fixture.nics_t0 [])
      as (_ & Hmissing & _).
    apply Hmissing.
    + apply insert_non_empty.
    + discriminate.
    + vm_compute. reflexivity.
  - destruct (construction_fails Fixture.render_unit Fixture.sleep_ok
                Fixture.args_wlan0 tt "wlan0" true 0.2
                Fixture.nics_t0 100 Fixture.nics_t0 Fixture.ticks)
      as (_ & _ & _ & _ & Hmain).
    apply Hmain. right. split; [discriminate | vm_compute; reflexivity].
Defined.

End Construction.

(** ** The loop of [main] *)

Section Loop.
Import TrafficCollector.
Context {R : Type} (render : R -> sample_dict -> result R).
Context (time_sleep : float -> result unit).

(** A loop that is still running goes on with the ticks that follow. *)
Lemma main_loop_app c r its dt ticks : forall i ds c1 r1 i1 more,
  main_loop render time_sleep c r its dt i ticks = (ds, Running c1 r1 i1) ->
  main_loop render time_sleep c r its dt i (ticks ++ more)
  = (ds ++ (main_loop render time_sleep c1 r1 its dt i1 more).1,
     (main_loop render time_sleep c1 r1 its dt i1 more).2).
Proof.
  revert c r. induction ticks as [|[now nics] ticks IH];
    intros c r i ds c1 r1 i1 more H.
  - simpl in H. injection H as <- <- <- <-. simpl.
    destruct (main_loop render time_sleep c r its dt i more); reflexivity.
  - simpl in H |- *.
    destruct (sample c now nics) as [[data c']|e]; [|discriminate].
    destruct (render r data) as [r'|e]; [|discriminate].
    destruct (match its with Some n => n <=? i + 1 | None => false end);
      [discriminate|].
    destruct (time_sleep dt) as [[]|e]; [|discriminate].
    destruct (main_loop render time_sleep c' r' its dt (i + 1) ticks)
      as [ds0 e0] eqn:Hrest.
    injection H as <- ->.
    rewrite (IH _ _ _ _ _ _ _ more Hrest).
    destruct (main_loop render time_sleep c1 r1 its dt i1 more); reflexivity.
Qed.

(** The collector of a running loop has the setup of the one it began with,
    and every tick so far has produced a dict. *)
Lemma main_loop_running c r its dt ticks : forall i ds c1 r1 i1,
  main_loop render time_sleep c r its dt i ticks = (ds, Running c1 r1 i1) ->
  same_setup c c1 /\ samples c ticks = Returned (ds, c1).
Proof.
  revert c r. induction ticks as [|[now nics] ticks IH];
    intros c r i ds c1 r1 i1 H.
  - simpl in H. injection H as <- <- <- <-.
    split; [apply same_setup_refl | reflexivity].
  - simpl in H |- *.
    destruct (sample c now nics) as [[data c']|e] eqn:Hd; [|discriminate].
    destruct (render r data) as [r'|e]; [|discriminate].
    destruct (match its with Some n => n <=? i + 1 | None => false end);
      [discriminate|].
    destruct (time_sleep dt) as [[]|e]; [|discriminate].
    destruct (main_loop render time_sleep c' r' its dt (i + 1) ticks)
      as [ds0 e0] eqn:Hrest.
    injection H as <- ->.
    destruct (IH _ _ _ _ _ _ _ Hrest) as [Hsetup Hrun]. split.
    + eapply same_setup_trans; [|exact Hsetup].
      apply sample_frame in Hd. exact Hd.
    + simpl. rewrite Hrun. reflexivity.
Qed.

(** C4.  A collector built with a selector that was valid at construction
    has sampled through [ticks]; at the next tick the read reports the
    interface missing.  Then that call of [sample] exits with status 1 and
    returns no dict, and the loop ends there with the dicts it had before,
    whatever ticks would have followed. *)
Theorem interface_lost iface ue a nics0 t0 nics_init c r its dt ticks ds c1 r1 i1
    now nics msg rest :
  __init__ iface ue a nics0 t0 nics_init = Returned c ->
  main_loop render time_sleep c r its dt 0 ticks = (ds, Running c1 r1 i1) ->
  _read_counters iface nics = Raised (ValueError msg) ->
  sample c1 now nics = Raised (SystemExit 1) /\
  main_loop render time_sleep c r its dt 0 (ticks ++ (now, nics) :: rest)
  = (ds, Uncaught (SystemExit 1)) /\
  length ds = length ticks.
Proof.
  intros Hinit Hloop Hread.
  apply init_Returned in Hinit as (_ & _ & _ & Hif & _).
  destruct (main_loop_running _ _ _ _ _ _ _ _ _ _ Hloop)
    as [(_ & _ & Hif1 & _) Hrun].
  assert (Hexit : sample c1 now nics = Raised (SystemExit 1)).
  { apply (sample_lost _ _ _ msg). rewrite Hif1, Hif. exact Hread. }
  split; [exact Hexit|]. split.
  - rewrite (main_loop_app _ _ _ _ _ _ _ _ _ _ _ Hloop). simpl.
    rewrite Hexit. simpl. rewrite app_nil_r. reflexivity.
  - eapply samples_length; eassumption.
Qed.

End Loop.

Lemma interface_lost_witness :
  TrafficCollector.sample (Fixture.run_ema).2 103 Fixture.nics_lo
  = Raised (SystemExit 1) /\
  main_loop Fixture.render_unit Fixture.sleep_ok (Fixture.collector true) tt
    None 1 0
    (Fixture.ticks ++ (103%float, Fixture.nics_lo) :: [(104%float, Fixture.nics_t2)])
  = ((Fixture.run_ema).1, Uncaught (SystemExit 1)) /\
  length (Fixture.run_ema).1 = length Fixture.ticks.
Proof.
  apply (interface_lost Fixture.render_unit Fixture.sleep_ok
           "eth0" true 0.2 Fixture.nics_t0 100 Fixture.nics_t0
           (Fixture.collector true) tt None 1 Fixture.ticks
           (Fixture.run_ema).1 (Fixture.run_ema).2 tt 3
           103 Fixture.nics_lo "Interface 'eth0' not found"
           [(104%float, Fixture.nics_t2)]).
  - vm_compute. reflexivity.
  - vm_compute. reflexivity.
  - vm_compute. reflexivity.
Defined.

(** ** Order and finiteness of floats *)

(** Case analysis on comparisons of floats, one of them often a constant:
    [SFcompare] is unfolded, the comparisons of exponents and mantissas
    are not. *)
Ltac sf_cases :=
  cbv beta iota delta [SFcompare SFleb SFltb SFeqb];
  repeat match goal with
         | |- context [match ?c with Eq => _ | Lt => _ | Gt => _ end] =>
             destruct c
         end;
  congruence.

Section FloatOrder.

Lemma Prim2SF_floor : Prim2SF 0.01 = S754_finite false 5764607523034235 (-59).
Proof. vm_compute. reflexivity. Qed.

Lemma Prim2SF_1024 : Prim2SF 1024 = S754_finite false 4503599627370496 (-42).
Proof. vm_compute. reflexivity. Qed.

Lemma Prim2SF_0 : Prim2SF 0 = S754_zero false.
Proof. vm_compute. reflexivity. Qed.

Lemma Prim2SF_1 : Prim2SF 1 = S754_finite false 4503599627370496 (-52).
Proof. vm_compute. reflexivity. Qed.

Lemma SFcompare_antisym a b c :
  SFcompare a b = Some c -> SFcompare b a = Some (CompOpp c).
Proof.
  destruct a as [sa|sa| |sa ma ea], b as [sb|sb| |sb mb eb]; simpl;
    try discriminate; intros [= <-];
    try (destruct sa; reflexivity); try (destruct sb; reflexivity);
    try (destruct sa, sb; reflexivity).
  assert (Hp : Pos.compare_cont Eq mb ma = CompOpp (Pos.compare_cont Eq ma mb))
    by (symmetry; apply (Pos.compare_cont_antisym ma mb Eq)).
  destruct sa, sb; try reflexivity;
    rewrite (Z.compare_antisym ea eb), Hp;
    destruct (ea ?= eb); simpl; try reflexivity;
    destruct (Pos.compare_cont Eq ma mb); reflexivity.
Qed.

Lemma SFcompare_refl a : a <> S754_nan -> SFcompare a a = Some Eq.
Proof.
  destruct a as [s|s| |s m e]; simpl; intros H; try congruence.
  - destruct s; reflexivity.
  - destruct s; rewrite Z.compare_refl, Pos.compare_cont_refl; reflexivity.
Qed.

Lemma is_nan_spec x : is_nan x = true <-> Prim2SF x = S754_nan.
Proof.
  unfold is_nan. rewrite FloatAxioms.eqb_spec. unfold SFeqb. split.
  - intros H. destruct (Prim2SF x) eqn:E; try reflexivity;
      rewrite SFcompare_refl in H by discriminate; discriminate.
  - intros ->. reflexivity.
Qed.


Lemma ltb_leb x y : (x <? y)%float = true -> (x <=? y)%float = true.
Proof.
  rewrite FloatAxioms.ltb_spec, FloatAxioms.leb_spec. unfold SFltb, SFleb.
  destruct (SFcompare _ _) as [[]|]; auto.
Qed.

(** The order is total away from NaN. *)
Lemma not_ltb_leb x y :
  is_nan x = false -> is_nan y = false ->
  (x <? y)%float = false -> (y <=? x)%float = true.
Proof.
  intros Hx Hy. rewrite FloatAxioms.ltb_spec, FloatAxioms.leb_spec. unfold SFltb, SFleb.
  destruct (SFcompare (Prim2SF x) (Prim2SF y)) as [c|] eqn:E.
  - rewrite (SFcompare_antisym _ _ _ E). destruct c; auto.
  - exfalso.
    assert (Hx' : Prim2SF x <> S754_nan).
    { intros H. apply is_nan_spec in H. congruence. }
    assert (Hy' : Prim2SF y <> S754_nan).
    { intros H. apply is_nan_spec in H. congruence. }
    destruct (Prim2SF x), (Prim2SF y); simpl in E; congruence.
Qed.

Lemma leb_not_ltb x y : (x <=? y)%float = true -> (y <? x)%float = false.
Proof.
  rewrite FloatAxioms.leb_spec, FloatAxioms.ltb_spec. unfold SFleb, SFltb.
  destruct (SFcompare (Prim2SF x) (Prim2SF y)) as [c|] eqn:E.
  - rewrite (SFcompare_antisym _ _ _ E). destruct c; simpl; congruence.
  - discriminate.
Qed.

Lemma ltb_not_leb x y : (x <? y)%float = true -> (y <=? x)%float = false.
Proof.
  rewrite FloatAxioms.leb_spec, FloatAxioms.ltb_spec. unfold SFleb, SFltb.
  destruct (SFcompare (Prim2SF x) (Prim2SF y)) as [c|] eqn:E.
  - rewrite (SFcompare_antisym _ _ _ E). destruct c; simpl; congruence.
  - discriminate.
Qed.

Lemma leb_refl x : is_nan x = false -> (x <=? x)%float = true.
Proof.
  intros Hx. rewrite FloatAxioms.leb_spec. unfold SFleb.
  rewrite SFcompare_refl; [reflexivity|].
  intros H. apply is_nan_spec in H. congruence.
Qed.

(** Whatever is above something is not NaN. *)
Lemma ltb_not_nan x y : (x <? y)%float = true -> is_nan y = false.
Proof.
  rewrite FloatAxioms.ltb_spec. unfold SFltb. intros H.
  destruct (is_nan y) eqn:E; [|reflexivity].
  apply is_nan_spec in E. rewrite E in H.
  destruct (Prim2SF x); discriminate.
Qed.

(** *** Rounding does not produce NaN *)

Lemma shr_1_nonneg mrs : 0 <= shr_m mrs -> 0 <= shr_m (shr_1 mrs).
Proof.
  destruct mrs as [m r s]. simpl.
  destruct m as [|[p|p|]|[p|p|]]; simpl; lia.
Qed.

Lemma iter_shr_1_nonneg p : forall mrs,
  0 <= shr_m mrs -> 0 <= shr_m (SpecFloat.iter_pos shr_1 p mrs).
Proof.
  induction p as [p IH|p IH|]; intros mrs H; simpl.
  - apply IH, IH, shr_1_nonneg, H.
  - apply IH, IH, H.
  - apply shr_1_nonneg, H.
Qed.

Lemma shr_fexp_nonneg m e l :
  0 <= m -> 0 <= shr_m (shr_fexp prec emax m e l).1.
Proof.
  intros H. unfold shr_fexp, shr.
  assert (H0 : 0 <= shr_m (shr_record_of_loc m l)).
  { destruct l as [|[]]; exact H. }
  destruct (_ - e) as [|p|p]; simpl; auto using iter_shr_1_nonneg.
Qed.

Lemma round_nearest_even_nonneg m l : 0 <= m -> 0 <= round_nearest_even m l.
Proof.
  intros H. destruct l as [|[]]; simpl; try lia. destruct (Z.even m); lia.
Qed.

Lemma binary_round_aux_not_nan s m e l :
  0 <= m -> binary_round_aux prec emax s m e l <> S754_nan.
Proof.
  intros H. unfold binary_round_aux.
  pose proof (shr_fexp_nonneg m e l H) as H1.
  destruct (shr_fexp prec emax m e l) as [mrs' e'].
  pose proof (shr_fexp_nonneg _ e' loc_Exact
                (round_nearest_even_nonneg _ (loc_of_shr_record mrs') H1)) as H2.
  destruct (shr_fexp prec emax _ e' loc_Exact) as [mrs'' e''].
  simpl in H2. destruct (shr_m mrs''); try discriminate; [|lia].
  destruct (_ <=? _); discriminate.
Qed.



End FloatOrder.

(** ** The interval floor *)

Section IntervalFloor.
Import TrafficCollector.



(** The interval is never zero. *)
Lemma py_max_nonzero x : (py_max x 0.01 =? 0)%float = false.
Proof.
  unfold py_max. destruct (x <? 0.01)%float eqn:E; [reflexivity|].
  revert E.
  rewrite FloatAxioms.eqb_spec, FloatAxioms.ltb_spec, Prim2SF_0, Prim2SF_floor.
  destruct (Prim2SF x) as [s|[]| |[] m e]; sf_cases.
Qed.

(** Away from NaN the interval is at least the floor, and positive. *)
Lemma py_max_floor x :
  is_nan x = false ->
  (0.01 <=? py_max x 0.01)%float = true /\ (0 <? py_max x 0.01)%float = true.
Proof.
  intros Hx. unfold py_max. destruct (x <? 0.01)%float eqn:E.
  - split; reflexivity.
  - assert (H : (0.01 <=? x)%float = true)
      by (apply not_ltb_leb; [assumption | reflexivity | assumption]).
    split; [exact H|]. revert H.
    rewrite FloatAxioms.leb_spec, FloatAxioms.ltb_spec, Prim2SF_0, Prim2SF_floor.
    unfold SFleb, SFltb.
    destruct (Prim2SF x) as [s|[]| |[] m e]; simpl; congruence.
Qed.







End IntervalFloor.

(** ** Unit scaling *)

Section Humanize.

(** The loop returns, from [length units - 1 - idx] units of fuel on, after
    the least number [k] of divisions that makes the value drop below 1024
    or the index reach the last unit. *)
Lemma humanize_loop_spec fuel : forall value idx,
  (length units - 1 <= idx + fuel)%nat ->
  exists k,
    humanize_loop fuel value idx = Some (scaled k value, (idx + k)%nat) /\
    (forall j, (j < k)%nat ->
       (1024 <=? scaled j value)%float = true /\ (idx + j < length units - 1)%nat) /\
    ((1024 <=? scaled k value)%float = false \/ (length units - 1 <= idx + k)%nat).
Proof.
  induction fuel as [|fuel IH]; intros value idx Hfuel.
  - exists O. simpl.
    destruct (1024 <=? value)%float eqn:Hv; simpl.
    + destruct (Nat.ltb_spec idx 4) as [Hlt|Hge]; [simpl in Hfuel; lia|].
      rewrite Nat.add_0_r. split; [reflexivity|].
      split; [intros; lia | right; simpl; lia].
    + rewrite Nat.add_0_r. split; [reflexivity|].
      split; [intros; lia | left; reflexivity].
  - simpl. destruct (1024 <=? value)%float eqn:Hv; simpl.
    + destruct (Nat.ltb_spec idx 4) as [Hlt|Hge].
      * destruct (IH (value / 1024)%float (idx + 1)%nat) as (k & Hk & Hbefore & Hend);
          [simpl in *; lia|].
        exists (S k). simpl. rewrite Hk.
        replace (idx + 1 + k)%nat with (idx + S k)%nat in * by lia.
        split; [reflexivity|]. split; [|exact Hend].
        intros [|j] Hj.
        -- split; [exact Hv | simpl; lia].
        -- destruct (Hbefore j) as [Ha Hb]; [lia|].
           split; [exact Ha | simpl in *; lia].
      * exists O. simpl. rewrite Nat.add_0_r. split; [reflexivity|].
        split; [intros; lia | right; simpl; lia].
    + exists O. simpl. rewrite Nat.add_0_r. split; [reflexivity|].
      split; [intros; lia | left; exact Hv].
Qed.

Lemma humanize_loop_total value :
  exists k,
    humanize_loop (length units) value 0 = Some (scaled k value, k) /\
    (k <= 4)%nat /\
    (forall j, (j < k)%nat -> (1024 <=? scaled j value)%float = true) /\
    ((1024 <=? scaled k value)%float = false \/ k = 4%nat).
Proof.
  destruct (humanize_loop_spec (length units) value 0) as (k & Hk & Hbefore & Hend);
    [simpl; lia|].
  exists k. simpl in *. repeat split.
  - exact Hk.
  - destruct k as [|k]; [lia|]. destruct (Hbefore k); lia.
  - intros j Hj. apply Hbefore, Hj.
  - destruct Hend; [left; assumption | right].
    destruct k as [|k]; [lia|]. destruct (Hbefore k); lia.
Qed.

(** The tenths digit is a digit. *)
Lemma format_1f_finite x :
  is_finite x = true ->
  exists sign t, 0 <= t mod 10 < 10 /\
    (sign = "" \/ sign = "-") /\
    format_1f x = sign +:+ digits (t / 10) +:+ "." +:+ digits (t mod 10).
Proof.
  unfold is_finite, format_1f. destruct (Prim2SF x) as [s|s| |s m e]; try discriminate.
  - intros _. exists (if s then "-" else ""), 0.
    split; [apply Z.mod_pos_bound; lia|]. destruct s; auto.
  - intros _. exists (if s then "-" else ""), (tenths m e).
    split; [apply Z.mod_pos_bound; lia|]. destruct s; auto.
Qed.

(** Zero and negative values are below 1024. *)
Lemma nonpositive_below_1024 x :
  (x <=? 0)%float = true -> (1024 <=? x)%float = false.
Proof.
  rewrite !FloatAxioms.leb_spec, Prim2SF_0, Prim2SF_1024.
  destruct (Prim2SF x) as [s|[]| |[] m e]; sf_cases.
Qed.

(** C6.  [humanize_bytes] returns for every float; its result is the value
    after [k] divisions by 1024, printed with one decimal, then a space, the
    [k]-th unit of B, KB, MB, GB, TB and "/s" exactly when [rate] is set,
    where [k] is the number of divisions after which the value is below 1024
    or the unit is TB.  A value below 1024, zero and the negative ones among
    them, is printed as it is, in B.  And the three examples. *)
Theorem humanize_bytes_spec value rate :
  (exists k,
     (k <= 4)%nat /\
     (forall j, (j < k)%nat -> (1024 <=? scaled j value)%float = true) /\
     ((1024 <=? scaled k value)%float = false \/ k = 4%nat) /\
     humanize_bytes value rate
     = Some (format_1f (scaled k value) +:+ " " +:+ nth k units ""
             +:+ (if rate then "/s" else ""))) /\
  ((1024 <=? value)%float = false ->
     humanize_bytes value rate
     = Some (format_1f value +:+ " B" +:+ (if rate then "/s" else ""))) /\
  ((value <=? 0)%float = true ->
     humanize_bytes value rate
     = Some (format_1f value +:+ " B" +:+ (if rate then "/s" else ""))) /\
  (forall x, is_finite x = true ->
     exists sign t, 0 <= t mod 10 < 10 /\ (sign = "" \/ sign = "-") /\
       format_1f x = sign +:+ digits (t / 10) +:+ "." +:+ digits (t mod 10)) /\
  humanize_bytes 1536 false = Some "1.5 KB" /\
  humanize_bytes 1048576 true = Some "1.0 MB/s" /\
  humanize_bytes 500 false = Some "500.0 B" /\
  humanize_bytes 0 false = Some "0.0 B" /\
  humanize_bytes (-1536) true = Some "-1536.0 B/s".
Proof.
  assert (Hsmall : (1024 <=? value)%float = false ->
            humanize_bytes value rate
            = Some (format_1f value +:+ " B" +:+ (if rate then "/s" else ""))).
  { intros Hv. unfold humanize_bytes. simpl. rewrite Hv. reflexivity. }
  split; [|split; [|split; [|split]]].
  - destruct (humanize_loop_total value) as (k & Hk & Hle & Hbefore & Hend).
    exists k. repeat split; try assumption.
    unfold humanize_bytes. rewrite Hk. reflexivity.
  - exact Hsmall.
  - intros Hv. apply Hsmall, nonpositive_below_1024, Hv.
  - apply format_1f_finite.
  - repeat split; vm_compute; reflexivity.
Qed.

End Humanize.

(** ** Rounding keeps a product below a bound *)

Section RoundingBound.

Lemma digits2_pos_lower m : 2 ^ (Zpos (digits2_pos m) - 1) <= Zpos m.
Proof.
  induction m as [m IH|m IH|]; simpl digits2_pos.
  - rewrite Pos2Z.inj_succ.
    replace (Z.succ (Zpos (digits2_pos m)) - 1) with (Z.succ (Zpos (digits2_pos m) - 1)) by lia.
    rewrite Z.pow_succ_r by lia. lia.
  - rewrite Pos2Z.inj_succ.
    replace (Z.succ (Zpos (digits2_pos m)) - 1) with (Z.succ (Zpos (digits2_pos m) - 1)) by lia.
    rewrite Z.pow_succ_r by lia. lia.
  - simpl. lia.
Qed.

Lemma digits2_pos_upper m : Zpos m < 2 ^ Zpos (digits2_pos m).
Proof.
  induction m as [m IH|m IH|]; simpl digits2_pos.
  - rewrite Pos2Z.inj_succ, Z.pow_succ_r by lia. lia.
  - rewrite Pos2Z.inj_succ, Z.pow_succ_r by lia. lia.
  - simpl. lia.
Qed.

(** A number below [2^k] has at most [k] digits. *)
Lemma digits2_pos_le m k : 0 <= k -> Zpos m < 2 ^ k -> Zpos (digits2_pos m) <= k.
Proof.
  intros Hk Hm. pose proof (digits2_pos_lower m) as Hlow.
  destruct (Z_le_gt_dec (Zpos (digits2_pos m)) k) as [|Hgt]; [assumption|].
  exfalso.
  assert (2 ^ k <= 2 ^ (Zpos (digits2_pos m) - 1))
    by (apply Z.pow_le_mono_r; lia).
  lia.
Qed.

Lemma shr_1_half mrs : 0 <= shr_m mrs -> shr_m (shr_1 mrs) = shr_m mrs / 2.
Proof.
  destruct mrs as [m r s]. simpl. intros H.
  destruct m as [|[p|p|]|p]; simpl shr_m; try lia.
  - reflexivity.
  - rewrite Pos2Z.inj_xI. apply (Z.div_unique _ 2 _ 1); lia.
  - rewrite Pos2Z.inj_xO. apply (Z.div_unique _ 2 _ 0); lia.
  - reflexivity.
Qed.

Lemma pow2_pos k : 0 <= k -> 0 < 2 ^ k.
Proof. intros. apply Z.pow_pos_nonneg; lia. Qed.

Lemma pow2_xO p : 2 ^ Zpos p~0 = 2 ^ Zpos p * 2 ^ Zpos p.
Proof. rewrite <- Z.pow_add_r by lia. f_equal. lia. Qed.

Lemma pow2_xI p : 2 ^ Zpos p~1 = 2 * (2 ^ Zpos p * 2 ^ Zpos p).
Proof.
  rewrite <- Z.pow_add_r, <- Z.pow_succ_r by lia. f_equal. lia.
Qed.

Lemma iter_shr_1_div p : forall mrs,
  0 <= shr_m mrs ->
  shr_m (SpecFloat.iter_pos shr_1 p mrs) = shr_m mrs / 2 ^ Zpos p.
Proof.
  induction p as [p IH|p IH|]; intros mrs H; simpl SpecFloat.iter_pos.
  - pose proof (pow2_pos (Zpos p) ltac:(lia)) as Hp.
    rewrite IH, IH, shr_1_half by auto using iter_shr_1_nonneg, shr_1_nonneg.
    rewrite !Z.div_div by lia. rewrite pow2_xI. reflexivity.
  - pose proof (pow2_pos (Zpos p) ltac:(lia)) as Hp.
    rewrite IH, IH by auto using iter_shr_1_nonneg.
    rewrite !Z.div_div by lia. rewrite pow2_xO. reflexivity.
  - rewrite shr_1_half by assumption. reflexivity.
Qed.

(** [shr_fexp] leaves a number that fits the format as it is; otherwise it
    divides the mantissa by a power of two and raises the exponent by as
    much, up to the exponent that the format gives to a number of this
    size. *)
Lemma shr_fexp_spec m e l :
  0 <= m ->
  shr_fexp prec emax m e l = (shr_record_of_loc m l, e) \/
  exists k,
    0 < k /\
    (shr_fexp prec emax m e l).2 = e + k /\
    e + k = fexp prec emax (Zdigits2 m + e) /\
    shr_m (shr_fexp prec emax m e l).1 = m / 2 ^ k.
Proof.
  intros Hm. unfold shr_fexp, shr.
  assert (H0 : shr_m (shr_record_of_loc m l) = m) by (destruct l as [|[]]; reflexivity).
  destruct (fexp prec emax (Zdigits2 m + e) - e) as [|p|p] eqn:Hk.
  - left. reflexivity.
  - right. exists (Zpos p). simpl. rewrite iter_shr_1_div, H0 by lia.
    repeat split; lia.
  - left. reflexivity.
Qed.

Lemma round_nearest_even_le m l : round_nearest_even m l <= m + 1.
Proof. destruct l as [|[]]; simpl; try lia. destruct (Z.even m); lia. Qed.

(** The result of rounding carries the sign it was given. *)
Lemma binary_round_aux_sign s m e l :
  match binary_round_aux prec emax s m e l with
  | S754_zero s' | S754_infinity s' | S754_finite s' _ _ => s' = s
  | S754_nan => True
  end.
Proof.
  unfold binary_round_aux.
  destruct (shr_fexp prec emax m e l) as [mrs' e'].
  destruct (shr_fexp prec emax _ e' loc_Exact) as [mrs'' e''].
  destruct (shr_m mrs''); auto. destruct (_ <=? _); reflexivity.
Qed.

Lemma magnitude_trunc_nonneg m e : 0 <= magnitude_trunc m e.
Proof.
  unfold magnitude_trunc. destruct e.
  - rewrite Z.shiftl_0_r. lia.
  - apply Z.shiftl_nonneg. lia.
  - apply Z.shiftr_nonneg. lia.
Qed.

(** The integer part of [m / 2^k * 2^(e + k)], for [m] at most
    [b * 2^(-e)]. *)
Lemma magnitude_trunc_below b m e k p :
  0 <= b -> e < 0 -> 0 <= k -> 0 <= m <= b * 2 ^ (- e) ->
  Zpos p = m / 2 ^ k ->
  magnitude_trunc p (e + k) <= b.
Proof.
  intros Hb He Hk Hm Hp. unfold magnitude_trunc. rewrite Hp.
  pose proof (pow2_pos k Hk) as Hpk.
  pose proof (pow2_pos (- e) ltac:(lia)) as Hpe.
  destruct (e + k) as [|q|q] eqn:Heq.
  - rewrite Z.shiftl_0_r.
    replace k with (- e) by lia.
    apply Z.div_le_upper_bound; lia.
  - rewrite Z.shiftl_mul_pow2 by lia.
    pose proof (pow2_pos (Zpos q) ltac:(lia)) as Hpq.
    replace k with (- e + Zpos q) by lia.
    rewrite Z.pow_add_r, <- Z.div_div by lia.
    assert (Hle : m / 2 ^ (- e) <= b) by (apply Z.div_le_upper_bound; lia).
    pose proof (Z.div_le_mono _ _ (2 ^ Zpos q) Hpq Hle) as Hdiv.
    pose proof (Z.mul_div_le b (2 ^ Zpos q) Hpq) as Hmul.
    nia.
  - rewrite Z.shiftr_div_pow2 by lia.
    pose proof (pow2_pos (Zpos q) ltac:(lia)) as Hpq.
    rewrite Z.div_div by lia. rewrite <- Z.pow_add_r by lia.
    replace (k + Zpos q) with (- e) by lia.
    apply Z.div_le_upper_bound; lia.
Qed.

(** A positive number below [b * 2^(-e)], for a bound [b] below [2^6],
    rounds to a float whose integer part is at most [b]. *)
Lemma binary_round_aux_below b m e :
  0 < b < 64 -> e < 0 -> Zpos m < b * 2 ^ (- e) ->
  match binary_round_aux prec emax false (Zpos m) e loc_Exact with
  | S754_finite _ m' e' => magnitude_trunc m' e' <= b
  | _ => True
  end.
Proof.
  intros Hb He Hlt.
  pose proof (pow2_pos (- e) ltac:(lia)) as Hpe.
  (* the first shift and the rounding leave [m2 * 2^e1 <= b] *)
  assert (H1 : exists m2 e1,
            0 <= m2 <= b * 2 ^ (- e1) /\ e1 < 0 /\
            binary_round_aux prec emax false (Zpos m) e loc_Exact
            = (let '(mrs2, e2) := shr_fexp prec emax m2 e1 loc_Exact in
               match shr_m mrs2 with
               | Z0 => S754_zero false
               | Zpos p =>
                   if e2 <=? emax - prec then S754_finite false p e2
                   else S754_infinity false
               | Zneg _ => S754_nan
               end)).
  { unfold binary_round_aux.
    destruct (shr_fexp_spec (Zpos m) e loc_Exact) as [Heq|(k & Hk & He1 & Hf & Hm1)];
      [lia| |].
    - rewrite Heq. exists (Zpos m), e. simpl. repeat split; lia.
    - destruct (shr_fexp prec emax (Zpos m) e loc_Exact) as [mrs1 e1].
      simpl in He1, Hm1. subst e1.
      pose proof (pow2_pos k ltac:(lia)) as Hpk.
      assert (He1 : e + k < 0).
      { rewrite Hf. simpl Zdigits2.
        assert (Hd : Zpos (digits2_pos m) <= 6 - e).
        { apply digits2_pos_le; [lia|].
          replace (6 - e) with (6 + - e) by lia. rewrite Z.pow_add_r by lia.
          change (2 ^ 6) with 64. nia. }
        unfold fexp, SpecFloat.emin, prec, emax. lia. }
      assert (Hdiv : shr_m mrs1 < b * 2 ^ (- (e + k))).
      { rewrite Hm1. apply Z.div_lt_upper_bound; [lia|].
        replace (2 ^ k * (b * 2 ^ (- (e + k)))) with (b * (2 ^ k * 2 ^ (- (e + k)))) by lia.
        rewrite <- Z.pow_add_r by lia.
        replace (k + - (e + k)) with (- e) by lia. exact Hlt. }
      assert (Hnn : 0 <= shr_m mrs1) by (rewrite Hm1; apply Z.div_pos; lia).
      exists (round_nearest_even (shr_m mrs1) (loc_of_shr_record mrs1)), (e + k).
      split; [|split; [assumption | reflexivity]].
      split; [apply round_nearest_even_nonneg; assumption|].
      pose proof (round_nearest_even_le (shr_m mrs1) (loc_of_shr_record mrs1)).
      lia. }
  destruct H1 as (m2 & e1 & Hm2 & He1 & ->).
  destruct (shr_fexp_spec m2 e1 loc_Exact) as [Heq|(k & Hk & He2 & _ & Hm3)];
    [lia| |].
  - rewrite Heq. simpl. destruct m2 as [|p|p]; try exact I.
    destruct (_ <=? _); [|exact I].
    replace e1 with (e1 + 0) by lia.
    apply (magnitude_trunc_below b (Zpos p)); try lia.
    rewrite Z.div_1_r. reflexivity.
  - destruct (shr_fexp prec emax m2 e1 loc_Exact) as [mrs2 e2].
    simpl in He2, Hm3. subst e2.
    destruct (shr_m mrs2) as [|p|p]; try exact I.
    destruct (_ <=? _); [|exact I].
    apply (magnitude_trunc_below b m2 e1 k); first [lia | exact Hm3].
Qed.

End RoundingBound.

(** ** The dashboard *)

Section Dashboard.
Import AnsiRenderer.

Lemma Prim2SF_50 : Prim2SF 50 = S754_finite false 7036874417766400 (-47).
Proof. vm_compute. reflexivity. Qed.

(** The mantissa of a float has at most 53 digits. *)
Lemma Prim2SF_mantissa x s m e :
  Prim2SF x = S754_finite s m e -> Zpos m < 2 ^ 53.
Proof.
  intros E. pose proof (Prim2SF_valid x) as Hv. rewrite E in Hv.
  unfold SpecFloat.valid_binary, bounded, canonical_mantissa in Hv.
  apply andb_prop in Hv as [Hc _]. apply Z.eqb_eq in Hc.
  pose proof (digits2_pos_upper m) as Hup.
  assert (Hd : Zpos (digits2_pos m) <= 53).
  { unfold fexp, SpecFloat.emin, prec, emax in Hc. lia. }
  assert (2 ^ Zpos (digits2_pos m) <= 2 ^ 53) by (apply Z.pow_le_mono_r; lia).
  lia.
Qed.

(** What [int] makes of a rounded number with the negative sign. *)
Lemma int_of_round_negative m e l n :
  int_of_sf (binary_round_aux prec emax true m e l) = Returned n -> n <= 0.
Proof.
  pose proof (binary_round_aux_sign true m e l) as Hs.
  destruct (binary_round_aux _ _ _ _ _ _) as [s'|s'| |s' m' e'];
    cbv beta iota delta [int_of_sf]; try discriminate; intros [= <-]; [lia|].
  subst s'. cbv beta iota delta [cond_Zopp].
  pose proof (magnitude_trunc_nonneg m' e'). lia.
Qed.

(** What [int] makes of a rounded positive number below [b * 2^(-e)]. *)
Lemma int_of_round_below b m e n :
  0 < b < 64 -> e < 0 -> Zpos m < b * 2 ^ (- e) ->
  int_of_sf (binary_round_aux prec emax false (Zpos m) e loc_Exact) = Returned n ->
  n <= b.
Proof.
  intros Hb He Hlt.
  pose proof (binary_round_aux_sign false (Zpos m) e loc_Exact) as Hs.
  pose proof (binary_round_aux_below b m e Hb He Hlt) as Hbelow.
  destruct (binary_round_aux _ _ _ _ _ _) as [s'|s'| |s' m' e'];
    cbv beta iota delta [int_of_sf]; try discriminate; intros [= <-]; [lia|].
  subst s'. exact Hbelow.
Qed.

(** Fifty times a number below [2^k] is below [50 * 2^k], with fifty
    written as the float has it. *)
Lemma fifty_times_below m k :
  0 <= k -> Zpos m < 2 ^ k ->
  Zpos (m * 7036874417766400) < 50 * 2 ^ (k + 47).
Proof.
  intros Hk Hm. rewrite Pos2Z.inj_mul, Z.pow_add_r by lia.
  replace (50 * (2 ^ k * 2 ^ 47)) with (2 ^ k * (50 * 2 ^ 47)) by ring.
  change (50 * 2 ^ 47) with (Zpos 7036874417766400).
  apply Z.mul_lt_mono_pos_r; [reflexivity | exact Hm].
Qed.

(** What [int] makes of fifty times a ratio that is not above 1. *)
Lemma int_of_scaled_ratio ratio n :
  (1 <? ratio)%float = false ->
  int_of_float (ratio * 50) = Returned n ->
  n <= 50.
Proof.
  intros Hle. unfold int_of_float.
  rewrite FloatAxioms.mul_spec, Prim2SF_50.
  destruct (Prim2SF ratio) as [s|s| |s m e] eqn:E;
    cbv beta iota delta [SF64mul SFmul]; try discriminate.
  - cbv beta iota delta [int_of_sf]. intros [= <-]. lia.
  - destruct s.
    + (* a negative ratio *)
      intros H. apply int_of_round_negative in H. lia.
    + (* a positive ratio, at most 1 *)
      pose proof (Prim2SF_mantissa _ _ _ _ E) as Hm.
      revert Hle. rewrite FloatAxioms.ltb_spec, Prim2SF_1, E.
      cbv beta iota delta [SFltb SFcompare].
      destruct (Z.compare_spec (-52) e) as [He|He|He]; try discriminate.
      * (* the exponent of 1 *)
        subst e.
        change (Pos.compare_cont Eq 4503599627370496 m)
          with (4503599627370496 ?= m)%positive.
        destruct (Pos.compare_spec 4503599627370496 m) as [Hc|Hc|Hc];
          try discriminate; intros _.
        -- subst m. intros H. vm_compute in H. injection H as <-. lia.
        -- pose proof (Pos2Z.pos_lt_pos _ _ Hc) as Hc'. clear Hc.
           apply int_of_round_below; [lia|lia|].
           apply (fifty_times_below m 52); [lia|].
           change (2 ^ 52) with (Zpos 4503599627370496). exact Hc'.
      * intros _.
        apply int_of_round_below; [lia|lia|].
        replace (- (e + -47)) with (- e + 47) by lia.
        apply fifty_times_below; [lia|].
        assert (2 ^ 53 <= 2 ^ (- e)) by (apply Z.pow_le_mono_r; lia).
        lia.
Qed.

(** *** The bar *)

Lemma py_min_cases q :
  (py_min q 1 = 1%float /\ (1 <? q)%float = true) \/
  (py_min q 1 = q /\ (1 <? q)%float = false).
Proof. unfold py_min. destruct (1 <? q)%float; auto. Qed.

Lemma float_of_int_50 : float_of_int 50 = Returned 50%float.
Proof. vm_compute. reflexivity. Qed.

(** With the width of 50 that [__init__] sets, [filled] is at most 50. *)
Lemma bar_filled_le self value max_value n :
  bar_width self = 50 ->
  _bar_filled self value max_value = Returned n ->
  n <= 50.
Proof.
  intros Hw. unfold _bar_filled. rewrite Hw, float_of_int_50.
  intros H. apply bind_Returned in H as (q & _ & H).
  change (int_of_float (py_min q 1 * 50) = Returned n) in H.
  destruct (py_min_cases q) as [[Hp _]|[Hp Hq]]; rewrite Hp in H.
  - vm_compute in H. injection H as <-. lia.
  - eapply int_of_scaled_ratio; eassumption.
Qed.

(** *** [int] and the floor *)

Lemma floor_of_sf_nonneg f : sf_nonneg f -> floor_of_sf f = int_of_sf f.
Proof.
  destruct f as [s|s| |[] m [|p|p]]; simpl; try reflexivity; try contradiction.
  intros _. rewrite Z.shiftr_div_pow2 by lia. reflexivity.
Qed.

Lemma binary_round_aux_nonneg m e l : sf_nonneg (binary_round_aux prec emax false m e l).
Proof.
  pose proof (binary_round_aux_sign false m e l) as Hs.
  destruct (binary_round_aux _ _ _ _ _ _) as [s|s| |s m' e']; try exact I;
    subst s; exact I.
Qed.

(** A quotient of a float that is not negative by a positive one. *)
Lemma div_nonneg x y :
  (0 <=? x)%float = true -> (0 <? y)%float = true -> sf_nonneg (Prim2SF (x / y)).
Proof.
  rewrite FloatAxioms.leb_spec, FloatAxioms.ltb_spec, FloatAxioms.div_spec, Prim2SF_0.
  unfold SF64div.
  destruct (Prim2SF x) as [sx|[]| |[] mx ex], (Prim2SF y) as [sy|[]| |[] my ey];
    cbv beta iota delta [SFleb SFltb SFcompare SFdiv]; try discriminate;
    intros _ _; try exact I.
  destruct (SFdiv_core_binary _ _ _ _ _ _) as [[mz ez] lz].
  apply binary_round_aux_nonneg.
Qed.

(** Fifty times a float that is not negative. *)
Lemma mul_50_nonneg x : sf_nonneg (Prim2SF x) -> sf_nonneg (Prim2SF (x * 50)).
Proof.
  rewrite FloatAxioms.mul_spec, Prim2SF_50. unfold SF64mul.
  destruct (Prim2SF x) as [s|[]| |[] m e];
    cbv beta iota delta [SFmul sf_nonneg]; try contradiction; intros _; try exact I.
  apply binary_round_aux_nonneg.
Qed.

(** For a metric that is not negative, [int] is the floor. *)
Lemma bar_filled_floor self value max_value :
  bar_width self = 50 ->
  (0 <=? value)%float = true -> (0 <? max_value)%float = true ->
  _bar_filled self value max_value
  = floor_of_float (py_min (value / max_value) 1 * 50).
Proof.
  intros Hw Hv Hm. unfold _bar_filled, truediv. rewrite Hw, float_of_int_50.
  assert (Hnz : (max_value =? 0)%float = false).
  { revert Hm. rewrite FloatAxioms.ltb_spec, FloatAxioms.eqb_spec, Prim2SF_0.
    destruct (Prim2SF max_value) as [s|[]| |[] m e]; sf_cases. }
  rewrite Hnz.
  change (int_of_float (py_min (value / max_value) 1 * 50)
          = floor_of_float (py_min (value / max_value) 1 * 50)).
  unfold floor_of_float, int_of_float.
  symmetry. apply floor_of_sf_nonneg, mul_50_nonneg.
  destruct (py_min_cases (value / max_value)) as [[-> _]|[-> _]].
  - rewrite Prim2SF_1. exact I.
  - apply div_nonneg; assumption.
Qed.

(** *** The running maxima *)

Lemma py_max_mono old bar :
  is_nan old = false ->
  (old <=? py_max old bar)%float = true /\ is_nan (py_max old bar) = false.
Proof.
  intros Hold. unfold py_max. destruct (old <? bar)%float eqn:E.
  - split; [apply ltb_leb, E | eapply ltb_not_nan, E].
  - split; [apply leb_refl, Hold | exact Hold].
Qed.

Lemma update_max_mono self d :
  maxima_ok self ->
  (max_sent self <=? max_sent (update_max self d))%float = true /\
  (max_recv self <=? max_recv (update_max self d))%float = true /\
  maxima_ok (update_max self d).
Proof.
  intros [Hs Hr]. unfold update_max, maxima_ok.
  destruct (bar_metrics self d) as [bs br]. simpl.
  destruct (py_max_mono _ bs Hs), (py_max_mono _ br Hr). auto.
Qed.

Lemma states_mono ds : forall self,
  maxima_ok self ->
  (forall a, states self ds !! 0%nat = Some a ->
     (max_sent self <=? max_sent a)%float = true /\
     (max_recv self <=? max_recv a)%float = true) /\
  (forall i a b, states self ds !! i = Some a -> states self ds !! S i = Some b ->
     (max_sent a <=? max_sent b)%float = true /\
     (max_recv a <=? max_recv b)%float = true).
Proof.
  induction ds as [|d ds IH]; intros self Hok.
  - split; intros; discriminate.
  - destruct (update_max_mono self d Hok) as (Hs & Hr & Hok').
    destruct (IH _ Hok') as [IH0 IHS]. simpl. split.
    + intros a [= <-]. auto.
    + intros [|i] a b Ha Hb; simpl in Ha, Hb.
      * injection Ha as <-. apply IH0, Hb.
      * eapply IHS; eassumption.
Qed.

Lemma states_bar_width ds : forall self i a,
  states self ds !! i = Some a -> bar_width a = bar_width self.
Proof.
  induction ds as [|d ds IH]; intros self i a H; [discriminate|].
  destruct i as [|i]; simpl in H.
  - injection H as <-. unfold update_max.
    destruct (bar_metrics self d). reflexivity.
  - rewrite (IH _ _ _ H). unfold update_max.
    destruct (bar_metrics self d). reflexivity.
Qed.

Lemma render_Returned self d self' bars :
  render self d = Returned (self', bars) -> self' = update_max self d.
Proof.
  unfold render. destruct (bar_metrics self d) as [bs br].
  intros H. apply bind_Returned in H as (out_bar & _ & H).
  apply bind_Returned in H as (in_bar & _ & H).
  injection H as <- _. reflexivity.
Qed.

(** C5, with [int] for the floor.  The maxima of an [AnsiRenderer] start at
    1.0; every [render] call sets each to the [max] of its value and the
    metric of its bar; over any sequence of calls from construction on
    neither decreases; the metrics 10, 50, 5, 80, 20 leave the maxima 10, 50,
    50, 80, 80.  [filled] is [int(ratio * 50)] for [ratio = min(value /
    max_value, 1.0)], which is the floor of that product when the metric is
    not negative; the ratio of 5 against 50 is 0.1, with 5 cells filled; and
    [filled] is never above 50. *)
Theorem dashboard_bar_ceiling view ds self d value max_value :
  (max_sent (__init__ view) = 1%float /\ max_recv (__init__ view) = 1%float) /\
  (max_sent (update_max self d) = py_max (max_sent self) (bar_metrics self d).1 /\
   max_recv (update_max self d) = py_max (max_recv self) (bar_metrics self d).2 /\
   forall self' bars,
     render self d = Returned (self', bars) -> self' = update_max self d) /\
  ((forall a, states (__init__ view) ds !! 0%nat = Some a ->
      (1 <=? max_sent a)%float = true /\ (1 <=? max_recv a)%float = true) /\
   (forall i a b,
      states (__init__ view) ds !! i = Some a ->
      states (__init__ view) ds !! S i = Some b ->
      (max_sent a <=? max_sent b)%float = true /\
      (max_recv a <=? max_recv b)%float = true) /\
   (forall i a, states (__init__ view) ds !! i = Some a -> bar_width a = 50)) /\
  (max_sent <$> states (__init__ "both")
                  (Fixture.with_rate <$> [10; 50; 5; 80; 20]%float)
   = [10; 50; 50; 80; 80]%float /\
   max_recv <$> states (__init__ "raw")
                  (Fixture.with_rate <$> [10; 50; 5; 80; 20]%float)
   = [10; 50; 50; 80; 80]%float) /\
  (_bar_filled self value max_value
   = (q ← truediv value max_value;
      w ← float_of_int (bar_width self);
      int_of_float (py_min q 1 * w)) /\
   py_min (5 / 50) 1 = 0.1%float /\
   _bar_filled (__init__ view) 5 50 = Returned 5 /\
   (bar_width self = 50 ->
    (0 <=? value)%float = true -> (0 <? max_value)%float = true ->
    _bar_filled self value max_value
    = floor_of_float (py_min (value / max_value) 1 * 50))) /\
  (forall n,
     bar_width self = 50 ->
     _bar_filled self value max_value = Returned n -> n <= 50).
Proof.
  assert (Hok : maxima_ok (__init__ view)) by (split; reflexivity).
  destruct (states_mono ds _ Hok) as [H0 HS].
  split; [split; reflexivity|].
  split; [|split; [|split; [|split]]].
  - split; [|split; [|apply render_Returned]];
      unfold update_max; destruct (bar_metrics self d) as [bs br]; reflexivity.
  - split; [exact H0|]. split; [exact HS|].
    intros i a Ha. rewrite (states_bar_width _ _ _ _ Ha). reflexivity.
  - split; vm_compute; reflexivity.
  - split; [reflexivity|]. split; [vm_compute; reflexivity|].
    split; [vm_compute; reflexivity|]. apply bar_filled_floor.
  - intros n. apply bar_filled_le.
Qed.

Lemma dashboard_bar_ceiling_witness :
  exists n, _bar_filled (__init__ "both") 80 50 = Returned n /\ n <= 50.
Proof.
  exists 50. split; [vm_compute; reflexivity|].
  destruct (dashboard_bar_ceiling "both" [] (__init__ "both")
              (Fixture.with_rate 80) 80 50) as (_ & _ & _ & _ & _ & Hle).
  apply Hle; vm_compute; reflexivity.
Defined.

(** With the metric -1 against the maximum 100, [filled] is 0, and the floor
    of the product is -1: the bar has 50 blank cells, not 51. *)
Lemma filled_is_not_the_floor :
  _bar_filled (__init__ "both") (-1) 100 = Returned 0 /\
  floor_of_float (py_min (-1 / 100) 1 * 50) = Returned (-1) /\
  _bar (__init__ "both") (-1) 100 = Returned (str_mul " " 50).
Proof. repeat split; vm_compute; reflexivity. Qed.

End Dashboard.

(** * Further properties *)

(** ** The collector: outcomes of construction and of a call *)

Section CollectorOutcomes.
Import TrafficCollector.

(** X1.  Construction succeeds exactly when the first interface table is
    not empty and the selector is "all" or names an interface of the table
    that [_read_counters] sees; the first test comes first, so an empty
    first table fails whatever the selector. *)
Theorem init_succeeds_iff iface ue a nics0 t0 nics :
  (exists c, __init__ iface ue a nics0 t0 nics = Returned c) <->
  nics0 <> ∅ /\ (iface = "all" \/ is_Some (nics !! iface)).
Proof.
  split.
  - intros [c H]. apply init_Returned in H as (Hne & Hread & _).
    split; [exact Hne|].
    unfold _read_counters in Hread.
    destruct (String.eqb_spec iface "all") as [|_]; [left; assumption|].
    right. destruct (nics !! iface); [eauto | discriminate].
  - intros [Hne Hsel]. unfold __init__.
    destruct (decide (nics0 = ∅)); [contradiction|].
    unfold _read_counters.
    destruct (String.eqb_spec iface "all") as [|Hnamed]; [simpl; eauto|].
    destruct Hsel as [|[c Hc]]; [contradiction|]. rewrite Hc. simpl. eauto.
Qed.

(** X2.  A call of [sample] exits with status 1 exactly when the selector
    names an interface that the table does not have; the only other exception
    it can raise is the [OverflowError] of the conversion of a counter
    difference: the [ValueError] of the read never gets out. *)
Theorem sample_outcomes self now nics :
  (sample self now nics = Raised (SystemExit 1) <->
   iface self <> "all" /\ nics !! iface self = None) /\
  (forall e, sample self now nics = Raised e ->
     e = SystemExit 1 \/ exists msg, e = OverflowError msg).
Proof.
  split; [split|].
  - intros H. apply sample_exit in H as (_ & e & H).
    apply read_Raised in H as (? & ? & _). auto.
  - intros [Hne Hnone]. eapply sample_lost. apply read_missing; assumption.
  - intros e. unfold sample.
    destruct (_read_counters (iface self) nics) as [current|e0] eqn:Hread.
    + simpl. intros H.
      assert (Hconv : forall z x e1, int_truediv z x = Raised e1 ->
                x = py_max (now - last_time self) 0.01 ->
                exists msg, e1 = OverflowError msg).
      { intros z x e1 H1 ->. unfold int_truediv, float_of_int, truediv in H1.
        rewrite py_max_nonzero in H1.
        destruct (is_infinity _); simpl in H1; [|discriminate].
        injection H1 as <-. eauto. }
      destruct (int_truediv (sent current - _) _) as [sr|e1] eqn:H1; simpl in H.
      * destruct (int_truediv (recv current - _) _) as [rr|e2] eqn:H2; simpl in H.
        -- destruct (use_ema self), (negb (ema_initialized self)); discriminate.
        -- injection H as <-. right. eapply Hconv; [exact H2 | reflexivity].
      * injection H as <-. right. eapply Hconv; [exact H1 | reflexivity].
    + apply read_Raised in Hread as (_ & _ & ->). simpl. intros [= <-]. auto.
Qed.

(** X6.  The aggregate under "all" is the named interface plus the
    aggregate of the other interfaces, for either counter. *)
Theorem aggregate_splits (nics : gmap string snetio) name c :
  name <> "all" -> nics !! name = Some c ->
  exists one rest total,
    _read_counters name nics = Returned one /\
    _read_counters "all" (delete name nics) = Returned rest /\
    _read_counters "all" nics = Returned total /\
    sent total = sent one + sent rest /\
    recv total = recv one + recv rest.
Proof.
  intros Hne Hc.
  exists {| sent := bytes_sent c; recv := bytes_recv c |},
         {| sent := sum_values bytes_sent (delete name nics);
            recv := sum_values bytes_recv (delete name nics) |},
         {| sent := sum_values bytes_sent nics;
            recv := sum_values bytes_recv nics |}.
  split; [|split; [reflexivity|split; [reflexivity|]]].
  - unfold _read_counters.
    destruct (String.eqb_spec name "all") as [|_]; [contradiction|].
    rewrite Hc. reflexivity.
  - simpl. rewrite <- (insert_delete_id nics name c Hc) at 1 3.
    rewrite !sum_values_insert by apply lookup_delete_eq. auto.
Qed.

Lemma aggregate_splits_witness :
  exists one rest total,
    _read_counters "eth0" Fixture.nics_t1 = Returned one /\
    _read_counters "all" (delete "eth0" Fixture.nics_t1) = Returned rest /\
    _read_counters "all" Fixture.nics_t1 = Returned total /\
    sent total = sent one + sent rest /\
    recv total = recv one + recv rest.
Proof.
  apply (aggregate_splits Fixture.nics_t1 "eth0" (Fixture.nic 1000 2000)).
  - discriminate.
  - vm_compute. reflexivity.
Defined.

End CollectorOutcomes.

(** ** The collector: consecutive dicts of a run *)

Section ConsecutiveDicts.
Import TrafficCollector.

(** The fields of a dict that copy the clock and the configuration. *)
Lemma sample_copies self now nics d self' :
  sample self now nics = Returned (d, self') ->
  timestamp d = now /\
  uptime d = (now - start_time self)%float /\
  iface_ d = iface self /\
  ema_enabled d = use_ema self /\
  ema_alpha d = alpha self.
Proof.
  unfold sample. intros H.
  apply bind_Returned in H as (current & _ & H).
  apply bind_Returned in H as (sent_rate & _ & H).
  apply bind_Returned in H as (recv_rate & _ & H).
  destruct (use_ema self), (negb (ema_initialized self));
    simpl in H; injection H as <- <-; simpl; auto.
Qed.

(** Each dict of a run against the collector before the run (for the first
    dict) or against the dict before it. *)
Lemma samples_consecutive c ticks : forall ds c',
  samples c ticks = Returned (ds, c') ->
  (forall d, ds !! 0%nat = Some d ->
     int_truediv
       (total_sent_B d - (sent (prev_counters c) - sent (start_counters c)))
       (interval d) = Returned (sent_Bps d) /\
     int_truediv
       (total_recv_B d - (recv (prev_counters c) - recv (start_counters c)))
       (interval d) = Returned (recv_Bps d) /\
     interval d = py_max (timestamp d - last_time c) 0.01 /\
     uptime d = (timestamp d - start_time c)%float) /\
  (forall i d d', ds !! i = Some d -> ds !! S i = Some d' ->
     int_truediv (total_sent_B d' - total_sent_B d) (interval d')
     = Returned (sent_Bps d') /\
     int_truediv (total_recv_B d' - total_recv_B d) (interval d')
     = Returned (recv_Bps d') /\
     interval d' = py_max (timestamp d' - timestamp d) 0.01 /\
     uptime d' = (timestamp d' - start_time c)%float).
Proof.
  revert c. induction ticks as [|[now nics] ticks IH]; intros c ds c' H.
  - apply samples_nil in H as [-> _]. split; intros; discriminate.
  - apply samples_cons in H as (d0 & c1 & ds' & Hd & H & ->).
    destruct (sample_frame _ _ _ _ _ Hd) as (Hsc & Hst & _).
    destruct (sample_copies _ _ _ _ _ Hd) as (Hts & Hup & _).
    destruct (sample_Returned _ _ _ _ _ Hd)
      as (current & sr & rr & _ & Hs & Hr & Hi & Hsb & Hrb & Htots & Htotr & Hp & Hl).
    assert (Hfirst :
      int_truediv
        (total_sent_B d0 - (sent (prev_counters c) - sent (start_counters c)))
        (interval d0) = Returned (sent_Bps d0) /\
      int_truediv
        (total_recv_B d0 - (recv (prev_counters c) - recv (start_counters c)))
        (interval d0) = Returned (recv_Bps d0) /\
      interval d0 = py_max (timestamp d0 - last_time c) 0.01 /\
      uptime d0 = (timestamp d0 - start_time c)%float).
    { rewrite Hi, Hsb, Hrb, Htots, Htotr, Hts, Hup.
      replace (sent current - sent (start_counters c)
               - (sent (prev_counters c) - sent (start_counters c)))
        with (sent current - sent (prev_counters c)) by lia.
      replace (recv current - recv (start_counters c)
               - (recv (prev_counters c) - recv (start_counters c)))
        with (recv current - recv (prev_counters c)) by lia.
      auto. }
    destruct (IH c1 ds' c' H) as [IH0 IHS]. split.
    + intros d [= <-]. exact Hfirst.
    + intros [|i] d d' Hd1 Hd2; simpl in Hd1, Hd2.
      * injection Hd1 as <-.
        destruct (IH0 _ Hd2) as (H1 & H2 & H3 & H4).
        rewrite Hp, Hsc, <- Htots in H1. rewrite Hp, Hsc, <- Htotr in H2.
        rewrite Hl, <- Hts in H3. rewrite Hst in H4. auto.
      * destruct (IHS _ _ _ Hd1 Hd2) as (H1 & H2 & H3 & H4).
        rewrite Hst in H4. auto.
Qed.



(** X5.  Over any run from construction on, the interval of a dict is the
    gap between its timestamp and the timestamp of the dict before it (the
    time of construction for the first dict), or 0.01 when the gap is
    smaller, and its uptime is its timestamp minus the time of
    construction. *)
Theorem intervals_from_timestamps iface ue a nics0 t0 nics c ticks ds c' :
  __init__ iface ue a nics0 t0 nics = Returned c ->
  samples c ticks = Returned (ds, c') ->
  (forall d, ds !! 0%nat = Some d ->
     interval d = py_max (timestamp d - t0) 0.01) /\
  (forall i d d', ds !! i = Some d -> ds !! S i = Some d' ->
     interval d' = py_max (timestamp d' - timestamp d) 0.01) /\
  (forall i d, ds !! i = Some d ->
     uptime d = (timestamp d - t0)%float /\
     exists tab, ticks !! i = Some (timestamp d, tab)).
Proof.
  intros Hinit Hrun.
  apply init_Returned in Hinit as (_ & _ & _ & _ & _ & _ & Hst & Hlt & _).
  destruct (samples_consecutive _ _ _ _ Hrun) as [H0 HS].
  split; [|split].
  - intros d Hd. destruct (H0 d Hd) as (_ & _ & H3 & _). congruence.
  - intros i d d' Hd Hd'. destruct (HS i d d' Hd Hd') as (_ & _ & H3 & _). auto.
  - intros i d Hd.
    destruct (samples_lookup _ _ _ _ _ _ Hrun Hd)
      as (now & tab & ci & ci' & Ht & (_ & Hsti & _) & Hsample).
    destruct (sample_copies _ _ _ _ _ Hsample) as (Hts & Hup & _).
    split; [congruence|]. exists tab. congruence.
Qed.

Lemma intervals_from_timestamps_witness :
  (forall d, (Fixture.run_ema).1 !! 0%nat = Some d ->
     interval d = py_max (timestamp d - 100) 0.01) /\
  (forall i d d',
     (Fixture.run_ema).1 !! i = Some d -> (Fixture.run_ema).1 !! S i = Some d' ->
     interval d' = py_max (timestamp d' - timestamp d) 0.01) /\
  (forall i d, (Fixture.run_ema).1 !! i = Some d ->
     uptime d = (timestamp d - 100)%float /\
     exists tab, Fixture.ticks !! i = Some (timestamp d, tab)).
Proof.
  apply (intervals_from_timestamps "eth0" true 0.2 Fixture.nics_t0 100
           Fixture.nics_t0 (Fixture.collector true) Fixture.ticks
           (Fixture.run_ema).1 (Fixture.run_ema).2).
  - vm_compute. reflexivity.
  - vm_compute. reflexivity.
Defined.

End ConsecutiveDicts.

(** ** The driver *)

Section DriverProperties.
Import TrafficCollector.
Context {R : Type} (render : R -> sample_dict -> result R).
Context (time_sleep : float -> result unit).

Lemma nan_not_above x y : is_nan y = true -> (x <? y)%float = false.
Proof.
  intros H. apply is_nan_spec in H.
  rewrite FloatAxioms.ltb_spec, H. unfold SFltb.
  destruct (Prim2SF x); reflexivity.
Qed.

(** X7.  [main] refuses a smoothing factor that is zero or negative, above
    1, or NaN: it exits with status 1 before it reads a clock or an
    interface table, whatever these and the other options are. *)
Theorem main_rejects_alpha a renderer nics0 t0 nics ticks :
  (arg_ema_alpha a <=? 0)%float = true \/
  (1 <? arg_ema_alpha a)%float = true \/
  is_nan (arg_ema_alpha a) = true ->
  main render time_sleep a renderer nics0 t0 nics ticks
  = ([], Uncaught (SystemExit 1)).
Proof.
  intros Hbad. unfold main.
  assert (Hguard : ((0 <? arg_ema_alpha a)%float
                    && (arg_ema_alpha a <=? 1)%float)%bool = false).
  { destruct Hbad as [H|[H|H]].
    - rewrite (leb_not_ltb _ _ H). reflexivity.
    - rewrite (ltb_not_leb _ _ H). apply andb_false_r.
    - rewrite (nan_not_above _ _ H). reflexivity. }
  rewrite Hguard. reflexivity.
Qed.

(** The number of dicts of a loop that began at the count [i]. *)
Lemma main_loop_count c r n dt ticks : forall i ds e,
  main_loop render time_sleep c r (Some n) dt i ticks = (ds, e) ->
  Z.of_nat (length ds) <= Z.max 1 (n - i) /\
  (e = Break -> Z.of_nat (length ds) = Z.max 1 (n - i)).
Proof.
  revert c r. induction ticks as [|[now nics] ticks IH]; intros c r i ds e H.
  - simpl in H. injection H as <- <-. simpl. split; [lia | discriminate].
  - simpl in H.
    destruct (sample c now nics) as [[data c']|e0].
    2:{ injection H as <- <-. simpl. split; [lia | discriminate]. }
    destruct (render r data) as [r'|e0].
    2:{ injection H as <- <-. simpl. split; [lia | discriminate]. }
    destruct (Z.leb_spec n (i + 1)) as [Hle|Hgt].
    { injection H as <- <-. simpl. split; lia. }
    destruct (time_sleep dt) as [[]|e0].
    2:{ injection H as <- <-. simpl. split; [lia | discriminate]. }
    destruct (main_loop render time_sleep c' r' (Some n) dt (i + 1) ticks)
      as [ds0 e1] eqn:Hrest.
    injection H as <- <-.
    destruct (IH _ _ _ _ _ Hrest) as [Hlen Hbreak].
    simpl length. split; [lia|]. intros He. specialize (Hbreak He). lia.
Qed.

Lemma main_loop_no_break c r dt ticks : forall i ds e,
  main_loop render time_sleep c r None dt i ticks = (ds, e) -> e <> Break.
Proof.
  revert c r. induction ticks as [|[now nics] ticks IH]; intros c r i ds e H.
  - simpl in H. injection H as <- <-. discriminate.
  - simpl in H.
    destruct (sample c now nics) as [[data c']|e0];
      [|injection H as <- <-; discriminate].
    destruct (render r data) as [r'|e0];
      [|injection H as <- <-; discriminate].
    destruct (time_sleep dt) as [[]|e0];
      [|injection H as <- <-; discriminate].
    destruct (main_loop render time_sleep c' r' None dt (i + 1) ticks)
      as [ds0 e1] eqn:Hrest.
    injection H as <- <-. eapply IH, Hrest.
Qed.

(** X8.  With a bound of [n] iterations the loop of [main] produces at
    most [n] dicts, and exactly [n] when it ends by [break]; a bound of zero
    or below counts as 1, since the test comes after the first iteration.
    Without a bound the loop never ends by [break]. *)
Theorem main_loop_iterations c r its dt ticks ds e :
  main_loop render time_sleep c r its dt 0 ticks = (ds, e) ->
  match its with
  | Some n =>
      Z.of_nat (length ds) <= Z.max 1 n /\
      (e = Break -> Z.of_nat (length ds) = Z.max 1 n)
  | None => e <> Break
  end.
Proof.
  intros H. destruct its as [n|].
  - apply main_loop_count in H. rewrite Z.sub_0_r in H. exact H.
  - eapply main_loop_no_break, H.
Qed.

(** X9.  The dicts that the loop of [main] hands to the renderer are the
    dicts that [sample] returns on the first ticks, one per tick and in
    order: neither the renderer nor the sleep can change or reorder them. *)
Theorem main_loop_dicts c r its dt ticks : forall i ds e,
  main_loop render time_sleep c r its dt i ticks = (ds, e) ->
  (length ds <= length ticks)%nat /\
  exists c', samples c (take (length ds) ticks) = Returned (ds, c').
Proof.
  revert c r. induction ticks as [|[now nics] ticks IH]; intros c r i ds e H.
  - simpl in H. injection H as <- <-. simpl. split; [lia | eauto].
  - simpl in H.
    destruct (sample c now nics) as [[data c']|e0] eqn:Hd.
    2:{ injection H as <- <-. simpl. split; [lia | eauto]. }
    assert (Hone : (length [data] <= length ((now, nics) :: ticks))%nat /\
              exists c'0, samples c (take (length [data]) ((now, nics) :: ticks))
                          = Returned ([data], c'0)).
    { simpl. split; [lia|]. rewrite Hd. simpl. try rewrite take_0. simpl. eauto. }
    destruct (render r data) as [r'|e0]; [|injection H as <- <-; exact Hone].
    destruct (match its with Some n => n <=? i + 1 | None => false end);
      [injection H as <- <-; exact Hone|].
    destruct (time_sleep dt) as [[]|e0]; [|injection H as <- <-; exact Hone].
    destruct (main_loop render time_sleep c' r' its dt (i + 1) ticks)
      as [ds0 e1] eqn:Hrest.
    injection H as <- <-.
    destruct (IH _ _ _ _ _ Hrest) as [Hlen [c'' Hrun]].
    simpl. split; [lia|]. rewrite Hd. simpl. rewrite Hrun. simpl. eauto.
Qed.

End DriverProperties.

Lemma main_rejects_alpha_witness :
  main Fixture.render_unit Fixture.sleep_ok Fixture.args_alpha_0 tt
    Fixture.nics_t0 100 Fixture.nics_t0 Fixture.ticks
  = ([], Uncaught (SystemExit 1)).
Proof.
  apply (main_rejects_alpha Fixture.render_unit Fixture.sleep_ok
           Fixture.args_alpha_0 tt Fixture.nics_t0 100 Fixture.nics_t0
           Fixture.ticks).
  left. vm_compute. reflexivity.
Defined.

Lemma main_loop_iterations_witness :
  Z.of_nat (length (take 2 (Fixture.run_ema).1)) <= Z.max 1 2 /\
  (@Break unit = Break -> Z.of_nat (length (take 2 (Fixture.run_ema).1)) = Z.max 1 2).
Proof.
  apply (main_loop_iterations Fixture.render_unit Fixture.sleep_ok
           (Fixture.collector true) tt (Some 2) 1 Fixture.ticks
           (take 2 (Fixture.run_ema).1) Break).
  vm_compute. reflexivity.
Defined.

Lemma main_loop_dicts_witness :
  (length (take 2 (Fixture.run_ema).1) <= length Fixture.ticks)%nat /\
  exists c',
    TrafficCollector.samples (Fixture.collector true)
      (take (length (take 2 (Fixture.run_ema).1)) Fixture.ticks)
    = Returned (take 2 (Fixture.run_ema).1, c').
Proof.
  apply (main_loop_dicts Fixture.render_unit Fixture.sleep_ok
           (Fixture.collector true) tt (Some 2) 1 Fixture.ticks 0
           (take 2 (Fixture.run_ema).1) Break).
  vm_compute. reflexivity.
Defined.

(** ** The dashboard: when the bars are drawn *)

Section BarsDrawn.
Import AnsiRenderer.

(** The first shift and the rounding of [binary_round_aux] on a positive
    number below [b * 2^(-e)] leave a mantissa [m2] and an exponent [e1 < 0]
    with [m2 * 2^e1 <= b]. *)
Lemma binary_round_aux_step b m e :
  0 < b < 64 -> e < 0 -> Zpos m < b * 2 ^ (- e) ->
  exists m2 e1,
    0 <= m2 <= b * 2 ^ (- e1) /\ e1 < 0 /\
    binary_round_aux prec emax false (Zpos m) e loc_Exact
    = (let '(mrs2, e2) := shr_fexp prec emax m2 e1 loc_Exact in
       match shr_m mrs2 with
       | Z0 => S754_zero false
       | Zpos p =>
           if e2 <=? emax - prec then S754_finite false p e2
           else S754_infinity false
       | Zneg _ => S754_nan
       end).
Proof.
  intros Hb He Hlt.
  pose proof (pow2_pos (- e) ltac:(lia)) as Hpe.
  unfold binary_round_aux.
  destruct (shr_fexp_spec (Zpos m) e loc_Exact) as [Heq|(k & Hk & He1 & Hf & Hm1)];
    [lia| |].
  - rewrite Heq. exists (Zpos m), e. simpl. repeat split; lia.
  - destruct (shr_fexp prec emax (Zpos m) e loc_Exact) as [mrs1 e1].
    simpl in He1, Hm1. subst e1.
    pose proof (pow2_pos k ltac:(lia)) as Hpk.
    assert (He1 : e + k < 0).
    { rewrite Hf. simpl Zdigits2.
      assert (Hd : Zpos (digits2_pos m) <= 6 - e).
      { apply digits2_pos_le; [lia|].
        replace (6 - e) with (6 + - e) by lia. rewrite Z.pow_add_r by lia.
        change (2 ^ 6) with 64. nia. }
      unfold fexp, SpecFloat.emin, prec, emax. lia. }
    assert (Hdiv : shr_m mrs1 < b * 2 ^ (- (e + k))).
    { rewrite Hm1. apply Z.div_lt_upper_bound; [lia|].
      replace (2 ^ k * (b * 2 ^ (- (e + k))))
        with (b * (2 ^ k * 2 ^ (- (e + k)))) by lia.
      rewrite <- Z.pow_add_r by lia.
      replace (k + - (e + k)) with (- e) by lia. exact Hlt. }
    assert (Hnn : 0 <= shr_m mrs1) by (rewrite Hm1; apply Z.div_pos; lia).
    exists (round_nearest_even (shr_m mrs1) (loc_of_shr_record mrs1)), (e + k).
    split; [|split; [assumption | reflexivity]].
    split; [apply round_nearest_even_nonneg; assumption|].
    pose proof (round_nearest_even_le (shr_m mrs1) (loc_of_shr_record mrs1)).
    lia.
Qed.

(** Such a number rounds to zero or to a finite float: there is no
    overflow. *)
Lemma binary_round_aux_below_finite b m e :
  0 < b < 64 -> e < 0 -> Zpos m < b * 2 ^ (- e) ->
  match binary_round_aux prec emax false (Zpos m) e loc_Exact with
  | S754_zero _ | S754_finite _ _ _ => True
  | S754_infinity _ | S754_nan => False
  end.
Proof.
  intros Hb He Hlt.
  destruct (binary_round_aux_step b m e Hb He Hlt) as (m2 & e1 & Hm2 & He1 & ->).
  destruct (shr_fexp_spec m2 e1 loc_Exact) as [Heq|(k & Hk & He2 & Hf & Hm3)];
    [lia| |].
  - rewrite Heq. simpl. destruct m2 as [|p|p]; [exact I| |lia].
    destruct (Z.leb_spec e1 (emax - prec)) as [|Hgt]; [exact I|].
    unfold prec, emax in Hgt. lia.
  - destruct (shr_fexp prec emax m2 e1 loc_Exact) as [mrs2 e2].
    simpl in He2, Hm3. subst e2.
    pose proof (pow2_pos k ltac:(lia)) as Hpk.
    assert (Hnn : 0 <= shr_m mrs2) by (rewrite Hm3; apply Z.div_pos; lia).
    destruct (shr_m mrs2) as [|p|p]; [exact I| |lia].
    destruct (Z.leb_spec (e1 + k) (emax - prec)) as [|Hgt]; [exact I|].
    exfalso. rewrite Hf in Hgt.
    assert (Hd : Zdigits2 m2 <= 6 - e1).
    { destruct m2 as [|q|q]; simpl Zdigits2; [lia| |lia].
      apply digits2_pos_le; [lia|].
      pose proof (pow2_pos (- e1) ltac:(lia)) as Hpe.
      replace (6 - e1) with (6 + - e1) by lia. rewrite Z.pow_add_r by lia.
      change (2 ^ 6) with 64. nia. }
    unfold fexp, SpecFloat.emin, prec, emax in Hgt. lia.
Qed.

(** [int] of a float that is not negative is not negative. *)
Lemma int_of_sf_nonneg f n : sf_nonneg f -> int_of_sf f = Returned n -> 0 <= n.
Proof.
  destruct f as [s|s| |[] m e]; simpl; try discriminate; try contradiction;
    intros _ [= <-]; [lia|]. apply magnitude_trunc_nonneg.
Qed.

(** The quotient of [SFdiv_core_binary] is not negative. *)
Lemma SFdiv_core_binary_nonneg mx ex my ey :
  0 <= (SFdiv_core_binary prec emax (Zpos mx) ex (Zpos my) ey).1.1.
Proof.
  unfold SFdiv_core_binary.
  set (m' := match _ - _ - _ with Z0 => Zpos mx | Zpos _ => _ | Zneg _ => 0 end).
  assert (Hm' : 0 <= m').
  { subst m'. destruct (_ - _ - _); try lia. apply Z.shiftl_nonneg. lia. }
  pose proof (Z_div_mod m' (Zpos my) ltac:(lia)) as Hdm.
  destruct (Z.div_eucl m' (Zpos my)) as [q r]. simpl.
  destruct Hdm as [Heq Hr]. nia.
Qed.

(** A quotient of a finite float that is not negative by a positive float
    is zero, a positive number or plus infinity. *)
Lemma div_nonneg_finite x y :
  is_finite x = true -> (0 <=? x)%float = true -> (0 <? y)%float = true ->
  match Prim2SF (x / y) with
  | S754_zero _ | S754_finite false _ _ | S754_infinity false => True
  | _ => False
  end.
Proof.
  unfold is_finite.
  rewrite FloatAxioms.leb_spec, FloatAxioms.ltb_spec, FloatAxioms.div_spec, Prim2SF_0.
  unfold SF64div.
  destruct (Prim2SF x) as [sx|[]| |[] mx ex], (Prim2SF y) as [sy|[]| |[] my ey];
    cbv beta iota delta [SFleb SFltb SFcompare SFdiv]; try discriminate;
    intros _ _ _; try exact I.
  pose proof (SFdiv_core_binary_nonneg mx ex my ey) as Hq.
  destruct (SFdiv_core_binary _ _ _ _ _ _) as [[mz ez] lz]. simpl in Hq.
  pose proof (binary_round_aux_sign (xorb false false) mz ez lz) as Hs.
  pose proof (binary_round_aux_not_nan (xorb false false) mz ez lz Hq) as Hn.
  destruct (binary_round_aux _ _ _ _ _ _) as [s|s| |s m e];
    try exact I; try congruence; simpl in Hs; subst s; exact I.
Qed.

(** [int] of fifty times a ratio between 0 and 1 returns. *)
Lemma int_of_scaled_ratio_returns ratio :
  (1 <? ratio)%float = false ->
  match Prim2SF ratio with
  | S754_zero _ | S754_finite false _ _ => True
  | _ => False
  end ->
  exists n, int_of_float (ratio * 50) = Returned n.
Proof.
  intros Hle Hcls. unfold int_of_float.
  rewrite FloatAxioms.mul_spec, Prim2SF_50.
  destruct (Prim2SF ratio) as [s|s| |[] m e] eqn:E; try contradiction;
    cbv beta iota delta [SF64mul SFmul].
  - simpl. eauto.
  - pose proof (Prim2SF_mantissa _ _ _ _ E) as Hm.
    assert (Hcase : (m = 4503599627370496%positive /\ e = -52) \/
                    (e + -47 < 0 /\
                     Zpos (m * 7036874417766400) < 50 * 2 ^ (- (e + -47)))).
    { revert Hle. rewrite FloatAxioms.ltb_spec, Prim2SF_1, E.
      cbv beta iota delta [SFltb SFcompare].
      destruct (Z.compare_spec (-52) e) as [He|He|He]; try discriminate.
      - subst e.
        change (Pos.compare_cont Eq 4503599627370496 m)
          with (4503599627370496 ?= m)%positive.
        destruct (Pos.compare_spec 4503599627370496 m) as [Hc|Hc|Hc];
          try discriminate; intros _.
        + left. auto.
        + right. pose proof (Pos2Z.pos_lt_pos _ _ Hc) as Hc'. clear Hc.
          split; [lia|].
          apply (fifty_times_below m 52); [lia|].
          change (2 ^ 52) with (Zpos 4503599627370496). exact Hc'.
      - intros _. right. split; [lia|].
        replace (- (e + -47)) with (- e + 47) by lia.
        apply fifty_times_below; [lia|].
        assert (2 ^ 53 <= 2 ^ (- e)) by (apply Z.pow_le_mono_r; lia).
        lia. }
    destruct Hcase as [[-> ->]|[He Hlt]].
    + vm_compute. eauto.
    + pose proof (binary_round_aux_below_finite 50 _ _ ltac:(lia) He Hlt) as Hfin.
      change (xorb false false) with false.
      destruct (binary_round_aux _ _ _ _ _ _) as [s'|s'| |s' m' e'];
        try contradiction; simpl; eauto.
Qed.

(** *** The maxima stay above zero *)

Lemma py_max_pos old bar :
  (0 <? old)%float = true -> (0 <? py_max old bar)%float = true.
Proof.
  intros Hold. unfold py_max. destruct (old <? bar)%float eqn:E; [|exact Hold].
  revert Hold E. rewrite !FloatAxioms.ltb_spec, Prim2SF_0.
  destruct (Prim2SF old) as [s|[]| |[] m e], (Prim2SF bar) as [s'|[]| |[] m' e'];
    sf_cases.
Qed.

Lemma pos_nonzero x : (0 <? x)%float = true -> (x =? 0)%float = false.
Proof.
  rewrite FloatAxioms.ltb_spec, FloatAxioms.eqb_spec, Prim2SF_0.
  destruct (Prim2SF x) as [s|[]| |[] m e]; sf_cases.
Qed.

Lemma update_max_pos self d : maxima_pos self -> maxima_pos (update_max self d).
Proof.
  intros [Hs Hr]. unfold update_max, maxima_pos.
  destruct (bar_metrics self d) as [bs br]. simpl.
  split; apply py_max_pos; assumption.
Qed.

Lemma update_max_bar_width self d : bar_width (update_max self d) = bar_width self.
Proof. unfold update_max. destruct (bar_metrics self d). reflexivity. Qed.

Lemma after_calls_view ds : forall self,
  view (foldl update_max self ds) = view self.
Proof.
  induction ds as [|d ds IH]; intros self; [reflexivity|].
  simpl. rewrite IH. unfold update_max. destruct (bar_metrics self d). reflexivity.
Qed.

(** The renderer after any sequence of calls from construction on. *)
Lemma after_calls_pos view ds :
  maxima_pos (foldl update_max (__init__ view) ds) /\
  bar_width (foldl update_max (__init__ view) ds) = 50.
Proof.
  assert (H : forall self, maxima_pos self -> bar_width self = 50 ->
            maxima_pos (foldl update_max self ds) /\
            bar_width (foldl update_max self ds) = 50).
  { induction ds as [|d ds IH]; intros self Hp Hw; [auto|].
    simpl. apply IH; [apply update_max_pos, Hp|].
    rewrite update_max_bar_width. exact Hw. }
  apply H; [split; reflexivity | reflexivity].
Qed.

(** A count within the range of a machine index is repeated. *)
Lemma py_str_mul_Returned s n :
  - 2 ^ 63 <= n <= 2 ^ 63 - 1 -> py_str_mul s n = Returned (str_mul s n).
Proof.
  intros [Hlo Hhi]. unfold py_str_mul.
  apply Z.leb_le in Hlo, Hhi. rewrite Hlo, Hhi. reflexivity.
Qed.




(** The bar of a metric as low as [-2e18] against the seed maximum: [int]
    returns [-10^20], which no machine index holds, and the repetition
    raises. *)
Example bar_of_a_huge_negative_metric :
  _bar_filled (__init__ "both") (-2e18) 1 = Returned (- 10 ^ 20) /\
  _bar (__init__ "both") (-2e18) 1
  = Raised (OverflowError "cannot fit 'int' into an index-sized integer").
Proof. split; vm_compute; reflexivity. Qed.

(** *** A metric that is finite and not negative *)

Lemma bar_filled_returns self value max_value :
  bar_width self = 50 ->
  is_finite value = true -> (0 <=? value)%float = true ->
  (0 <? max_value)%float = true ->
  exists n, _bar_filled self value max_value = Returned n /\ 0 <= n <= 50.
Proof.
  intros Hw Hf Hv Hm.
  assert (Hex : exists n, _bar_filled self value max_value = Returned n).
  { unfold _bar_filled, truediv. rewrite Hw, float_of_int_50, (pos_nonzero _ Hm).
    change (exists n, int_of_float (py_min (value / max_value) 1 * 50) = Returned n).
    pose proof (div_nonneg_finite _ _ Hf Hv Hm) as Hq.
    destruct (py_min_cases (value / max_value)) as [[-> _]|[-> Hle]].
    - exists 50. vm_compute. reflexivity.
    - apply int_of_scaled_ratio_returns; [exact Hle|].
      revert Hle. rewrite FloatAxioms.ltb_spec, Prim2SF_1.
      destruct (Prim2SF (value / max_value)) as [s|[]| |[] m e];
        try contradiction; try (intros _; exact I).
      cbv beta iota delta [SFltb SFcompare]. discriminate. }
  destruct Hex as [n Hn]. exists n. split; [exact Hn|]. split.
  - rewrite (bar_filled_floor _ _ _ Hw Hv Hm) in Hn.
    unfold floor_of_float in Hn.
    assert (Hnn : sf_nonneg (Prim2SF (py_min (value / max_value) 1 * 50))).
    { apply mul_50_nonneg.
      destruct (py_min_cases (value / max_value)) as [[-> _]|[-> _]].
      - rewrite Prim2SF_1. exact I.
      - apply div_nonneg; assumption. }
    rewrite (floor_of_sf_nonneg _ Hnn) in Hn.
    eapply int_of_sf_nonneg; eassumption.
  - eapply bar_filled_le; eassumption.
Qed.

(** X12.  From construction on, whatever dicts were rendered before, a dict
    whose two bar metrics are finite and not negative gets both bars drawn:
    each bar has between 0 and 50 filled cells followed by blanks up to 50
    cells in all. *)
Theorem bars_drawn view ds d :
  is_finite (bar_metrics (__init__ view) d).1 = true ->
  (0 <=? (bar_metrics (__init__ view) d).1)%float = true ->
  is_finite (bar_metrics (__init__ view) d).2 = true ->
  (0 <=? (bar_metrics (__init__ view) d).2)%float = true ->
  exists n_out n_in,
    0 <= n_out <= 50 /\ 0 <= n_in <= 50 /\
    render (foldl update_max (__init__ view) ds) d
    = Returned (update_max (foldl update_max (__init__ view) ds) d,
                (str_mul "█" n_out +:+ str_mul " " (50 - n_out),
                 str_mul "█" n_in +:+ str_mul " " (50 - n_in))).
Proof.
  destruct (after_calls_pos view ds) as [Hp Hw].
  set (self := foldl update_max (__init__ view) ds) in *.
  assert (Hview : bar_metrics self d = bar_metrics (__init__ view) d).
  { unfold bar_metrics. subst self. rewrite after_calls_view. reflexivity. }
  rewrite <- Hview. clear Hview.
  pose proof (update_max_pos self d Hp) as [Hs Hr].
  pose proof (update_max_bar_width self d) as Hw'. rewrite Hw in Hw'.
  unfold render. destruct (bar_metrics self d) as [bs br]. simpl.
  intros Hf1 Hv1 Hf2 Hv2.
  destruct (bar_filled_returns _ bs _ Hw' Hf1 Hv1 Hs) as (n1 & Hn1 & Hb1).
  destruct (bar_filled_returns _ br _ Hw' Hf2 Hv2 Hr) as (n2 & Hn2 & Hb2).
  exists n1, n2. split; [exact Hb1|]. split; [exact Hb2|].
  unfold _bar. rewrite Hn1, Hn2, Hw'. simpl.
  rewrite !py_str_mul_Returned by lia. reflexivity.
Qed.

Lemma bars_drawn_witness :
  exists n_out n_in,
    0 <= n_out <= 50 /\ 0 <= n_in <= 50 /\
    render (foldl update_max (__init__ "both") [Fixture.with_rate 50]) (Fixture.with_rate 5)
    = Returned (update_max (foldl update_max (__init__ "both") [Fixture.with_rate 50])
                  (Fixture.with_rate 5),
                (str_mul "█" n_out +:+ str_mul " " (50 - n_out),
                 str_mul "█" n_in +:+ str_mul " " (50 - n_in))).
Proof.
  apply (bars_drawn "both" [Fixture.with_rate 50] (Fixture.with_rate 5));
    vm_compute; reflexivity.
Defined.

(** *** A negative metric *)

Lemma str_repeat_blank_length n : String.length (str_repeat " " n) = n.
Proof. induction n as [|n IH]; simpl; [reflexivity | f_equal; exact IH]. Qed.

(** X13.  A negative metric against a maximum above zero fills no cell:
    [filled] is zero or negative, and the bar is [50 - filled] blanks, which
    is more than the 50 cells of the frame when [filled] is negative. *)
Theorem negative_metric_bar self value max_value s :
  bar_width self = 50 ->
  (value <? 0)%float = true -> (0 <? max_value)%float = true ->
  _bar self value max_value = Returned s ->
  exists filled,
    _bar_filled self value max_value = Returned filled /\
    filled <= 0 /\
    s = str_mul " " (50 - filled) /\
    String.length s = Z.to_nat (50 - filled).
Proof.
  intros Hw Hv Hm H. unfold _bar in H.
  apply bind_Returned in H as (filled & Hfilled & H).
  apply bind_Returned in H as (full & Hfull & H).
  apply bind_Returned in H as (blank & Hblank & H).
  injection H as <-. exists filled. split; [exact Hfilled|].
  assert (Hle : filled <= 0).
  { revert Hfilled. unfold _bar_filled, truediv.
    rewrite Hw, float_of_int_50, (pos_nonzero _ Hm).
    change (int_of_float (py_min (value / max_value) 1 * 50) = Returned filled
            -> filled <= 0).
    assert (Hq : match Prim2SF (value / max_value) with
                 | S754_finite false _ _ | S754_infinity false => False
                 | _ => True
                 end).
    { revert Hv Hm.
      rewrite !FloatAxioms.ltb_spec, FloatAxioms.div_spec, Prim2SF_0.
      unfold SF64div.
      destruct (Prim2SF value) as [sx|[]| |[] mx ex],
               (Prim2SF max_value) as [sy|[]| |[] my ey];
        cbv beta iota delta [SFltb SFcompare SFdiv]; try discriminate;
        intros _ _; try exact I.
      destruct (SFdiv_core_binary _ _ _ _ _ _) as [[mz ez] lz].
      pose proof (binary_round_aux_sign (xorb true false) mz ez lz) as Hs.
      destruct (binary_round_aux _ _ _ _ _ _) as [s|s| |s m e];
        try exact I; simpl in Hs; subst s; exact I. }
    assert (Hmin : py_min (value / max_value) 1 = (value / max_value)%float).
    { destruct (py_min_cases (value / max_value)) as [[_ Hlt]|[Heq _]];
        [|exact Heq].
      exfalso. revert Hlt Hq. rewrite FloatAxioms.ltb_spec, Prim2SF_1.
      destruct (Prim2SF (value / max_value)) as [s|[]| |[] m e]; sf_cases. }
    rewrite Hmin. unfold int_of_float.
    rewrite FloatAxioms.mul_spec, Prim2SF_50. unfold SF64mul.
    destruct (Prim2SF (value / max_value)) as [s|[]| |[] m e];
      try contradiction; cbv beta iota delta [SFmul]; try discriminate.
    - simpl. intros [= <-]. lia.
    - apply int_of_round_negative. }
  split; [exact Hle|].
  assert (Hnone : full = "").
  { revert Hfull. unfold py_str_mul. destruct (_ && _)%bool; [|discriminate].
    intros [= <-]. unfold str_mul.
    replace (Z.to_nat filled) with 0%nat by lia. reflexivity. }
  assert (Hrest : blank = str_mul " " (50 - filled)).
  { revert Hblank. rewrite Hw. unfold py_str_mul.
    destruct (_ && _)%bool; [|discriminate]. intros [= <-]. reflexivity. }
  rewrite Hnone, Hrest.
  change ("" +:+ str_mul " " (50 - filled)) with (str_mul " " (50 - filled)).
  split; [reflexivity|]. apply str_repeat_blank_length.
Qed.

Lemma negative_metric_bar_witness :
  exists filled,
    _bar_filled (__init__ "both") (-4) 100 = Returned filled /\
    filled <= 0 /\
    str_mul " " 52 = str_mul " " (50 - filled) /\
    String.length (str_mul " " 52) = Z.to_nat (50 - filled).
Proof.
  apply (negative_metric_bar (__init__ "both") (-4) 100 (str_mul " " 52));
    vm_compute; reflexivity.
Defined.

(** *** The maximum is a maximum *)

(** X10.  After the update of [render] each maximum is the former maximum
    or the metric of this dict, and is at least as large as both, as long as
    the metric is not NaN; a NaN metric leaves the maximum as it was. *)
Theorem update_max_is_max self d :
  maxima_ok self ->
  (is_nan (bar_metrics self d).1 = false ->
     ((bar_metrics self d).1 <=? max_sent (update_max self d))%float = true /\
     (max_sent self <=? max_sent (update_max self d))%float = true) /\
  (is_nan (bar_metrics self d).2 = false ->
     ((bar_metrics self d).2 <=? max_recv (update_max self d))%float = true /\
     (max_recv self <=? max_recv (update_max self d))%float = true) /\
  (max_sent (update_max self d) = max_sent self \/
   max_sent (update_max self d) = (bar_metrics self d).1) /\
  (max_recv (update_max self d) = max_recv self \/
   max_recv (update_max self d) = (bar_metrics self d).2) /\
  (is_nan (bar_metrics self d).1 = true ->
     max_sent (update_max self d) = max_sent self) /\
  (is_nan (bar_metrics self d).2 = true ->
     max_recv (update_max self d) = max_recv self).
Proof.
  intros [Hs Hr].
  assert (Hmax : forall old bar, is_nan old = false ->
            (is_nan bar = false ->
               (bar <=? py_max old bar)%float = true /\
               (old <=? py_max old bar)%float = true) /\
            (py_max old bar = old \/ py_max old bar = bar) /\
            (is_nan bar = true -> py_max old bar = old)).
  { intros old bar Hold. unfold py_max.
    destruct (old <? bar)%float eqn:E.
    - split; [|split; [auto|]].
      + intros Hbar. split; [apply leb_refl, Hbar | apply ltb_leb, E].
      + intros Hbar. rewrite (nan_not_above _ _ Hbar) in E. discriminate.
    - split; [|split; [auto|reflexivity]].
      intros Hbar. split; [|apply leb_refl, Hold].
      apply not_ltb_leb; assumption. }
  unfold update_max. destruct (bar_metrics self d) as [bs br]. simpl.
  destruct (Hmax _ bs Hs) as (H1 & H2 & H3).
  destruct (Hmax _ br Hr) as (H4 & H5 & H6).
  auto 10.
Qed.

Lemma update_max_is_max_witness :
  (10 <=? max_sent (update_max (__init__ "both") (Fixture.with_rate 10)))%float
  = true /\
  (1 <=? max_sent (update_max (__init__ "both") (Fixture.with_rate 10)))%float
  = true.
Proof.
  destruct (update_max_is_max (__init__ "both") (Fixture.with_rate 10))
    as (Hsent & _).
  - split; reflexivity.
  - apply Hsent. reflexivity.
Defined.

End BarsDrawn.

(** ** The collector: when a call returns *)

Section SampleReturns.
Import TrafficCollector.

Lemma pos_iter_xO m d : Zpos (Pos.iter xO m d) = Zpos m * 2 ^ Zpos d.
Proof.
  induction d as [|d IH] using Pos.peano_ind.
  - simpl. lia.
  - rewrite Pos.iter_succ, Pos2Z.inj_xO, IH, Pos2Z.inj_succ, Z.pow_succ_r by lia.
    lia.
Qed.

(** The sign given to [binary_round_aux] only shows in the sign of its
    result. *)
Lemma binary_round_aux_any_sign s m e l :
  binary_round_aux prec emax s m e l
  = match binary_round_aux prec emax false m e l with
    | S754_zero _ => S754_zero s
    | S754_infinity _ => S754_infinity s
    | S754_nan => S754_nan
    | S754_finite _ m' e' => S754_finite s m' e'
    end.
Proof.
  unfold binary_round_aux.
  destruct (shr_fexp prec emax m e l) as [mrs' e'].
  destruct (shr_fexp prec emax _ e' loc_Exact) as [mrs'' e''].
  destruct (shr_m mrs''); try reflexivity. destruct (_ <=? _); reflexivity.
Qed.

(** A number below [2^63] with an exponent of zero or less does not round
    to an infinity. *)
Lemma binary_round_aux_small s m e :
  Zpos m < 2 ^ 63 -> e <= 0 ->
  match binary_round_aux prec emax s (Zpos m) e loc_Exact with
  | S754_zero _ | S754_finite _ _ _ => True
  | S754_infinity _ | S754_nan => False
  end.
Proof.
  intros Hm He.
  assert (H1 : exists m2 e1,
            0 <= m2 <= 2 ^ 63 /\ e1 <= 10 /\
            binary_round_aux prec emax s (Zpos m) e loc_Exact
            = (let '(mrs2, e2) := shr_fexp prec emax m2 e1 loc_Exact in
               match shr_m mrs2 with
               | Z0 => S754_zero s
               | Zpos p =>
                   if e2 <=? emax - prec then S754_finite s p e2
                   else S754_infinity s
               | Zneg _ => S754_nan
               end)).
  { unfold binary_round_aux.
    destruct (shr_fexp_spec (Zpos m) e loc_Exact) as [Heq|(k & Hk & He1 & Hf & Hm1)];
      [lia| |].
    - rewrite Heq. exists (Zpos m), e. simpl. repeat split; lia.
    - destruct (shr_fexp prec emax (Zpos m) e loc_Exact) as [mrs1 e1].
      simpl in He1, Hm1. subst e1.
      pose proof (pow2_pos k ltac:(lia)) as Hpk.
      assert (He1 : e + k <= 10).
      { rewrite Hf. simpl Zdigits2.
        assert (Hd : Zpos (digits2_pos m) <= 63) by (apply digits2_pos_le; lia).
        unfold fexp, SpecFloat.emin, prec, emax. lia. }
      assert (Hnn : 0 <= shr_m mrs1) by (rewrite Hm1; apply Z.div_pos; lia).
      assert (Hle : shr_m mrs1 <= Zpos m).
      { rewrite Hm1. apply Z.div_le_upper_bound; [lia|]. nia. }
      exists (round_nearest_even (shr_m mrs1) (loc_of_shr_record mrs1)), (e + k).
      split; [|split; [assumption | reflexivity]].
      split; [apply round_nearest_even_nonneg; assumption|].
      pose proof (round_nearest_even_le (shr_m mrs1) (loc_of_shr_record mrs1)).
      lia. }
  destruct H1 as (m2 & e1 & Hm2 & He1 & ->).
  destruct (shr_fexp_spec m2 e1 loc_Exact) as [Heq|(k & Hk & He2 & Hf & Hm3)];
    [lia| |].
  - rewrite Heq. simpl. destruct m2 as [|p|p]; [exact I| |lia].
    destruct (Z.leb_spec e1 (emax - prec)) as [|Hgt]; [exact I|].
    unfold prec, emax in Hgt. lia.
  - destruct (shr_fexp prec emax m2 e1 loc_Exact) as [mrs2 e2].
    simpl in He2, Hm3. subst e2.
    pose proof (pow2_pos k ltac:(lia)) as Hpk.
    assert (Hnn : 0 <= shr_m mrs2) by (rewrite Hm3; apply Z.div_pos; lia).
    destruct (shr_m mrs2) as [|p|p]; [exact I| |lia].
    destruct (Z.leb_spec (e1 + k) (emax - prec)) as [|Hgt]; [exact I|].
    exfalso. rewrite Hf in Hgt.
    assert (Hd : Zdigits2 m2 <= 64).
    { destruct m2 as [|q|q]; simpl Zdigits2; [lia| |lia].
      apply digits2_pos_le; [lia|].
      change (2 ^ 64) with (2 * 2 ^ 63). lia. }
    unfold fexp, SpecFloat.emin, prec, emax in Hgt. lia.
Qed.

(** An integer below [2^63] in magnitude converts to zero or to a finite
    float. *)
Lemma binary_normalize_small z :
  Z.abs z < 2 ^ 63 ->
  match binary_normalize prec emax z 0 false with
  | S754_zero _ | S754_finite _ _ _ => True
  | S754_infinity _ | S754_nan => False
  end.
Proof.
  intros Hz. unfold binary_normalize.
  assert (Hround : forall s m, Zpos m < 2 ^ 63 ->
            match binary_round prec emax s m 0 with
            | S754_zero _ | S754_finite _ _ _ => True
            | S754_infinity _ | S754_nan => False
            end).
  { intros s m Hm. unfold binary_round, shl_align.
    destruct (fexp prec emax (Zpos (digits2_pos m) + 0) - 0) as [|d|d] eqn:Hd.
    - apply binary_round_aux_small; [exact Hm | lia].
    - apply binary_round_aux_small; [exact Hm | lia].
    - apply binary_round_aux_small.
      + rewrite pos_iter_xO.
        pose proof (digits2_pos_upper m) as Hup.
        pose proof (pow2_pos (Zpos d) ltac:(lia)) as Hpd.
        assert (Hdd : Zpos (digits2_pos m) + Zpos d <= 53).
        { unfold fexp, SpecFloat.emin, prec, emax in Hd. lia. }
        assert (Hpow : 2 ^ Zpos (digits2_pos m) * 2 ^ Zpos d <= 2 ^ 53).
        { rewrite <- Z.pow_add_r by lia. apply Z.pow_le_mono_r; lia. }
        assert (2 ^ 53 < 2 ^ 63) by (apply Z.pow_lt_mono_r; lia).
        nia.
      + unfold fexp, SpecFloat.emin, prec, emax in *. lia. }
  destruct z as [|m|m]; [exact I| |]; apply Hround; lia.
Qed.

(** The conversion of an integer below [2^63] in magnitude gives a valid
    float. *)
Lemma binary_normalize_valid z :
  Z.abs z < 2 ^ 63 ->
  SpecFloat.valid_binary prec emax (binary_normalize prec emax z 0 false) = true.
Proof.
  intros Hz.
  assert (Hpos : forall m, Zpos m < 2 ^ 63 ->
            SpecFloat.valid_binary prec emax
              (binary_normalize prec emax (Zpos m) 0 false) = true).
  { intros m Hm.
    rewrite <- (Z.mod_small (Zpos m) Uint63Axioms.wB)
      by (change Uint63Axioms.wB with (2 ^ 63); lia).
    rewrite <- Uint63.of_Z_spec, <- of_uint63_spec. apply Prim2SF_valid. }
  destruct z as [|m|m]; [reflexivity|apply Hpos; lia|].
  specialize (Hpos m ltac:(lia)). revert Hpos.
  unfold binary_normalize, binary_round.
  destruct (shl_align m 0 _) as [mz ez].
  rewrite (binary_round_aux_any_sign true).
  destruct (binary_round_aux prec emax false _ _ _); auto.
Qed.

Lemma Prim2SF_infinity : Prim2SF infinity = S754_infinity false.
Proof. vm_compute. reflexivity. Qed.

(** [float(z)] returns for an integer below [2^63] in magnitude. *)
Lemma float_of_int_returns z :
  Z.abs z < 2 ^ 63 -> exists f, float_of_int z = Returned f.
Proof.
  intros Hz. unfold float_of_int.
  set (x := binary_normalize prec emax z 0 false).
  assert (Hinf : is_infinity (SF2Prim x) = false).
  { unfold is_infinity.
    rewrite FloatAxioms.eqb_spec, FloatAxioms.abs_spec, Prim2SF_infinity.
    rewrite (Prim2SF_SF2Prim x (binary_normalize_valid z Hz)).
    pose proof (binary_normalize_small z Hz) as Hsmall. fold x in Hsmall.
    destruct x as [s|s| |s m e]; try contradiction; reflexivity. }
  rewrite Hinf. eauto.
Qed.

(** X3.  A call of [sample] returns a dict whenever the read of the
    counters succeeds and each counter has moved by less than [2^63] bytes
    since the call before, whatever the clock says. *)
Theorem sample_returns self now nics current :
  _read_counters (iface self) nics = Returned current ->
  Z.abs (sent current - sent (prev_counters self)) < 2 ^ 63 ->
  Z.abs (recv current - recv (prev_counters self)) < 2 ^ 63 ->
  exists d self', sample self now nics = Returned (d, self').
Proof.
  intros Hread Hs Hr. unfold sample. rewrite Hread. simpl.
  unfold int_truediv, truediv. rewrite py_max_nonzero.
  destruct (float_of_int_returns _ Hs) as [fs ->].
  destruct (float_of_int_returns _ Hr) as [fr ->]. simpl.
  destruct (use_ema self), (negb (ema_initialized self)); simpl; eauto.
Qed.

Lemma sample_returns_witness :
  exists d self',
    sample (Fixture.collector true) 101 Fixture.nics_t1 = Returned (d, self').
Proof.
  apply (sample_returns (Fixture.collector true) 101 Fixture.nics_t1
           {| sent := 1000; recv := 2000 |});
    vm_compute; reflexivity.
Defined.

End SampleReturns.

(** ** The collector: the sign of a rate *)

Section RateSign.
Import TrafficCollector.

(** What [float(z)] is, for an integer below [2^63] in magnitude. *)
Lemma float_of_int_Prim2SF z f :
  Z.abs z < 2 ^ 63 -> float_of_int z = Returned f ->
  Prim2SF f = binary_normalize prec emax z 0 false.
Proof.
  intros Hz. unfold float_of_int.
  destruct (is_infinity _); [discriminate|]. intros [= <-].
  apply Prim2SF_SF2Prim, binary_normalize_valid, Hz.
Qed.

(** It is zero or finite, and negative exactly when [z] is. *)
Lemma binary_normalize_sign z :
  Z.abs z < 2 ^ 63 ->
  match binary_normalize prec emax z 0 false with
  | S754_zero s | S754_finite s _ _ => s = (z <? 0)
  | S754_infinity _ | S754_nan => False
  end.
Proof.
  intros Hz. pose proof (binary_normalize_small z Hz) as Hsmall. revert Hsmall.
  unfold binary_normalize, binary_round.
  destruct z as [|m|m]; [reflexivity| |];
    destruct (shl_align m 0 _) as [mz ez];
    match goal with
    | |- context [binary_round_aux prec emax ?s ?a ?b ?c] =>
        pose proof (binary_round_aux_sign s a b c) as Hs;
        destruct (binary_round_aux prec emax s a b c)
    end; try contradiction; intros _; exact Hs.
Qed.

(** A float above zero is a positive number or plus infinity. *)
Lemma pos_class x :
  (0 <? x)%float = true ->
  match Prim2SF x with
  | S754_finite false _ _ | S754_infinity false => True
  | _ => False
  end.
Proof.
  rewrite FloatAxioms.ltb_spec, Prim2SF_0.
  destruct (Prim2SF x) as [s|[]| |[] m e];
    cbv beta iota delta [SFltb SFcompare]; try discriminate; intros _; exact I.
Qed.

(** The sign of [z / x] for an integer [z] and a float [x] above zero. *)
Lemma int_truediv_sign z x r :
  Z.abs z < 2 ^ 63 -> (0 <? x)%float = true ->
  int_truediv z x = Returned r ->
  (z = 0 -> r = 0%float) /\
  (z < 0 -> (r <=? 0)%float = true) /\
  (0 < z -> (0 <=? r)%float = true).
Proof.
  intros Hz Hx H. unfold int_truediv in H.
  apply bind_Returned in H as (f & Hf & H).
  unfold truediv in H. rewrite (pos_nonzero _ Hx) in H. injection H as <-.
  pose proof (float_of_int_Prim2SF z f Hz Hf) as Hpf.
  pose proof (binary_normalize_sign z Hz) as Hsign. rewrite <- Hpf in Hsign.
  pose proof (pos_class x Hx) as Hcls.
  assert (Hdiv : match Prim2SF (f / x) with
                 | S754_zero s | S754_finite s _ _ | S754_infinity s => s = (z <? 0)
                 | S754_nan => False
                 end /\
                 (z = 0 -> Prim2SF (f / x) = S754_zero false)).
  { rewrite FloatAxioms.div_spec. unfold SF64div.
    assert (Hz0 : z = 0 -> exists s, Prim2SF f = S754_zero s).
    { intros ->. rewrite Hpf. simpl. eauto. }
    destruct (Prim2SF f) as [s|s| |s m e], (Prim2SF x) as [s'|[]| |[] m' e'];
      try contradiction; cbv beta iota delta [SFdiv]; subst s;
      try (split; [now destruct (z <? 0) | intros Hz'; subst z; reflexivity]);
      try (split; [now destruct (z <? 0) |
                   intros Hz'; destruct (Hz0 Hz') as [? ?]; discriminate]).
    pose proof (SFdiv_core_binary_nonneg m e m' e') as Hq.
    destruct (SFdiv_core_binary _ _ _ _ _ _) as [[mz ez] lz]. simpl in Hq.
    pose proof (binary_round_aux_sign (xorb (z <? 0) false) mz ez lz) as Hs.
    pose proof (binary_round_aux_not_nan (xorb (z <? 0) false) mz ez lz Hq) as Hn.
    rewrite xorb_false_r in *.
    split; [|intros Hz'; destruct (Hz0 Hz') as [? ?]; discriminate].
    destruct (binary_round_aux _ _ _ _ _ _); try exact Hs. congruence. }
  destruct Hdiv as [Hs H0]. split; [|split].
  - intros Hz'. apply Prim2SF_inj. rewrite (H0 Hz'), Prim2SF_0. reflexivity.
  - intros Hneg. rewrite FloatAxioms.leb_spec, Prim2SF_0.
    assert (Hb : (z <? 0) = true) by (apply Z.ltb_lt; lia). rewrite Hb in Hs.
    destruct (Prim2SF (f / x)) as [s|s| |s m e]; try contradiction; subst s;
      reflexivity.
  - intros Hpos. rewrite FloatAxioms.leb_spec, Prim2SF_0.
    assert (Hb : (z <? 0) = false) by (apply Z.ltb_ge; lia). rewrite Hb in Hs.
    destruct (Prim2SF (f / x)) as [s|s| |s m e]; try contradiction; subst s;
      reflexivity.
Qed.

(** *** A quotient that is not rounded to zero *)

Lemma round_nearest_even_ge m l : m <= round_nearest_even m l.
Proof. destruct l as [|[]]; simpl; try lia. destruct (Z.even m); lia. Qed.

(** [shr_fexp] does not shift a number down to zero that is worth at least the
    least positive float, [2^-1074]. *)
Lemma shr_fexp_pos m e l :
  0 < m -> (-1074 <= e \/ 2 ^ (-1074 - e) <= m) ->
  0 < shr_m (shr_fexp prec emax m e l).1 /\
  e <= (shr_fexp prec emax m e l).2 /\
  (-1074 <= (shr_fexp prec emax m e l).2 \/
   2 ^ (-1074 - (shr_fexp prec emax m e l).2) <= shr_m (shr_fexp prec emax m e l).1).
Proof.
  intros Hm Hlow.
  destruct (shr_fexp_spec m e l ltac:(lia)) as [Heq|(k & Hk & He & Hf & Hq)].
  - rewrite Heq. simpl.
    assert (H0 : shr_m (shr_record_of_loc m l) = m) by (destruct l as [|[]]; reflexivity).
    rewrite H0. split; [lia|]. split; [lia|exact Hlow].
  - rewrite He, Hq. 
    assert (Hge : -1074 <= e + k).
    { rewrite Hf. unfold fexp, SpecFloat.emin, prec, emax. lia. }
    split; [|split; [lia|left; exact Hge]].
    pose proof (pow2_pos k ltac:(lia)) as Hpk.
    apply Z.div_str_pos. split; [lia|].
    destruct m as [|p|p]; try lia. simpl Zdigits2 in Hf.
    pose proof (digits2_pos_lower p) as Hd.
    destruct (Z_le_gt_dec (-1074) e) as [Hee|Hee].
    + assert (Hk' : k <= Zpos (digits2_pos p) - 1).
      { unfold fexp, SpecFloat.emin, prec, emax in Hf. lia. }
      assert (2 ^ k <= 2 ^ (Zpos (digits2_pos p) - 1)) by (apply Z.pow_le_mono_r; lia).
      lia.
    + destruct Hlow as [Hlow|Hlow]; [lia|].
      destruct (Z_le_gt_dec k (-1074 - e)) as [Hke|Hke].
      * assert (2 ^ k <= 2 ^ (-1074 - e)) by (apply Z.pow_le_mono_r; lia). lia.
      * assert (Hk' : k <= Zpos (digits2_pos p) - 1).
        { unfold fexp, SpecFloat.emin, prec, emax in Hf. lia. }
        assert (2 ^ k <= 2 ^ (Zpos (digits2_pos p) - 1)) by (apply Z.pow_le_mono_r; lia).
        lia.
Qed.

Lemma binary_round_aux_nonzero s m e l :
  0 < m -> (-1074 <= e \/ 2 ^ (-1074 - e) <= m) ->
  match binary_round_aux prec emax s m e l with
  | S754_finite s' _ e' => s' = s /\ e <= e'
  | S754_infinity s' => s' = s
  | _ => False
  end.
Proof.
  intros Hm Hlow. unfold binary_round_aux.
  destruct (shr_fexp_pos m e l Hm Hlow) as (H1 & He1 & Hl1).
  destruct (shr_fexp prec emax m e l) as [mrs1 e1]. simpl in H1, He1, Hl1.
  pose proof (round_nearest_even_ge (shr_m mrs1) (loc_of_shr_record mrs1)) as Hr.
  set (m2 := round_nearest_even (shr_m mrs1) (loc_of_shr_record mrs1)) in *.
  assert (Hl2 : -1074 <= e1 \/ 2 ^ (-1074 - e1) <= m2) by (destruct Hl1; [left|right]; lia).
  destruct (shr_fexp_pos m2 e1 loc_Exact ltac:(lia) Hl2) as (H2 & He2 & _).
  destruct (shr_fexp prec emax m2 e1 loc_Exact) as [mrs2 e2]. simpl in H2, He2.
  destruct (shr_m mrs2) as [|p|p]; try lia.
  destruct (e2 <=? emax - prec); [split; [reflexivity|lia]|reflexivity].
Qed.

(** The quotient that [SFdiv_core_binary] hands to the rounding, for a
    dividend worth 1 or more and a finite divisor: it is not zero and is
    worth at least the least positive float. *)
Lemma SFdiv_core_binary_lower m1 e1 m2 e2 :
  1 <= Zpos (digits2_pos m1) + e1 -> Zpos (digits2_pos m1) <= 53 ->
  Zpos (digits2_pos m2) + e2 <= 1024 ->
  0 < (SFdiv_core_binary prec emax (Zpos m1) e1 (Zpos m2) e2).1.1 /\
  (-1074 <= (SFdiv_core_binary prec emax (Zpos m1) e1 (Zpos m2) e2).1.2 \/
   2 ^ (-1074 - (SFdiv_core_binary prec emax (Zpos m1) e1 (Zpos m2) e2).1.2)
   <= (SFdiv_core_binary prec emax (Zpos m1) e1 (Zpos m2) e2).1.1).
Proof.
  intros H1 Hd1 H2. unfold SFdiv_core_binary.
  cbv beta iota delta [Zdigits2].
  set (d1 := Zpos (digits2_pos m1)) in *. set (d2 := Zpos (digits2_pos m2)) in *.
  set (e' := Z.min (fexp prec emax (d1 + e1 - (d2 + e2))) (e1 - e2)).
  pose proof (digits2_pos_lower m1) as Hl1. fold d1 in Hl1.
  pose proof (digits2_pos_upper m2) as Hu2. fold d2 in Hu2.
  assert (Hd2 : 1 <= d2) by (subst d2; lia).
  assert (He' : e' <= e1 - e2) by (subst e'; lia).
  assert (HF : -1074 <= fexp prec emax (d1 + e1 - (d2 + e2)))
    by (unfold fexp, SpecFloat.emin, prec, emax; lia).
  destruct (e1 - e2 - e') as [|s|s] eqn:Hs; [| |lia].
  - (* no shift *)
    assert (Hee : e' = e1 - e2) by lia.
    assert (Hlow : e1 - e2 <= -1074).
    { subst e'. unfold fexp, SpecFloat.emin, prec, emax in *. lia. }
    set (j := -1074 - (e1 - e2)).
    assert (Hj : 0 <= j) by (subst j; lia).
    assert (Hdd : d2 + j <= d1 - 1) by (subst j; lia).
    assert (Hpow : 2 ^ j * 2 ^ d2 <= 2 ^ (d1 - 1)).
    { rewrite <- Z.pow_add_r by lia. apply Z.pow_le_mono_r; lia. }
    pose proof (pow2_pos j Hj) as Hpj.
    assert (Hq : 2 ^ j <= Zpos m1 / Zpos m2).
    { apply Z.div_le_lower_bound; [lia|]. nia. }
    pose proof (Z_div_mod (Zpos m1) (Zpos m2) ltac:(lia)) as Hdm.
    unfold Z.div in Hq.
    destruct (Z.div_eucl (Zpos m1) (Zpos m2)) as [q r]. simpl.
    split; [lia|]. right. rewrite Hee. fold j. exact Hq.
  - (* the dividend is shifted *)
    assert (Hee : e' = fexp prec emax (d1 + e1 - (d2 + e2))) by (subst e'; lia).
    assert (Hdd : d2 <= d1 - 1 + Zpos s).
    { rewrite <- Hs, Hee. unfold fexp, SpecFloat.emin, prec, emax. lia. }
    rewrite Z.shiftl_mul_pow2 by lia.
    pose proof (pow2_pos (Zpos s) ltac:(lia)) as Hps.
    assert (Hpow : 2 ^ d2 <= 2 ^ (d1 - 1) * 2 ^ Zpos s).
    { rewrite <- Z.pow_add_r by lia. apply Z.pow_le_mono_r; lia. }
    assert (Hq : 1 <= (Zpos m1 * 2 ^ Zpos s) / Zpos m2).
    { apply Z.div_le_lower_bound; [lia|]. nia. }
    unfold Z.div in Hq.
    destruct (Z.div_eucl (Zpos m1 * 2 ^ Zpos s) (Zpos m2)) as [q r]. simpl.
    split; [lia|]. left. lia.
Qed.

(** A float other than zero that [float(z)] returns is worth 1 or more. *)
Lemma binary_normalize_magnitude z :
  z <> 0 -> Z.abs z < 2 ^ 63 ->
  exists m e,
    binary_normalize prec emax z 0 false = S754_finite (z <? 0) m e /\
    1 <= Zpos (digits2_pos m) + e /\ Zpos (digits2_pos m) <= 53.
Proof.
  intros Hz0 Hz.
  pose proof (binary_normalize_valid z Hz) as Hvalid.
  pose proof (binary_normalize_small z Hz) as Hsmall.
  assert (Hround : forall s p,
            match binary_round prec emax s p 0 with
            | S754_finite s' _ e' => s' = s /\ -52 <= e'
            | S754_infinity s' => s' = s
            | _ => False
            end).
  { intros s p. unfold binary_round, shl_align.
    pose proof (digits2_pos_lower p) as Hl.
    assert (H0 : -1074 <= 0) by lia.
    destruct (fexp prec emax (Zpos (digits2_pos p) + 0) - 0) as [|d|d] eqn:Hd.
    - pose proof (binary_round_aux_nonzero s (Zpos p) 0 loc_Exact
                    (Pos2Z.pos_is_pos p) (or_introl H0)) as H.
      destruct (binary_round_aux _ _ _ _ _ _); try exact H. destruct H; split; [assumption|lia].
    - pose proof (binary_round_aux_nonzero s (Zpos p) 0 loc_Exact
                    (Pos2Z.pos_is_pos p) (or_introl H0)) as H.
      destruct (binary_round_aux _ _ _ _ _ _); try exact H. destruct H; split; [assumption|lia].
    - assert (He : -52 <= fexp prec emax (Zpos (digits2_pos p) + 0)).
      { unfold fexp, SpecFloat.emin, prec, emax. lia. }
      assert (He' : -1074 <= fexp prec emax (Zpos (digits2_pos p) + 0)) by lia.
      pose proof (binary_round_aux_nonzero s (Zpos (Pos.iter xO p d)) _ loc_Exact
                    (Pos2Z.pos_is_pos _) (or_introl He')) as H.
      destruct (binary_round_aux _ _ _ _ _ _); try exact H. destruct H; split; [assumption|lia]. }
  assert (H : match binary_normalize prec emax z 0 false with
              | S754_finite s' _ e' => s' = (z <? 0) /\ -52 <= e'
              | _ => False
              end).
  { revert Hsmall. unfold binary_normalize.
    destruct z as [|p|p]; [lia| |].
    - specialize (Hround false p).
      destruct (binary_round prec emax false p 0); try contradiction; auto.
    - specialize (Hround true p).
      destruct (binary_round prec emax true p 0); try contradiction; auto. }
  destruct (binary_normalize prec emax z 0 false) as [s|s| |s m e]; try contradiction.
  destruct H as [-> He]. exists m, e. split; [reflexivity|].
  simpl in Hvalid. unfold bounded, canonical_mantissa in Hvalid.
  apply andb_prop in Hvalid as [Hc _]. apply Z.eqb_eq in Hc.
  unfold fexp, SpecFloat.emin, prec, emax in Hc. lia.
Qed.

(** A finite float is below [2^1024]. *)
Lemma finite_magnitude x s m e :
  Prim2SF x = S754_finite s m e -> Zpos (digits2_pos m) + e <= 1024.
Proof.
  intros H. pose proof (Prim2SF_valid x) as Hv. rewrite H in Hv.
  simpl in Hv. unfold bounded, canonical_mantissa in Hv.
  apply andb_prop in Hv as [Hc Hmax].
  apply Z.eqb_eq in Hc. apply Z.leb_le in Hmax.
  unfold fexp, SpecFloat.emin, prec, emax in *. lia.
Qed.

(** The sign of [z / x] for an integer [z] and a finite float [x] above
    zero: the quotient of an integer other than zero is not rounded to
    zero. *)
Lemma int_truediv_strict z x r :
  Z.abs z < 2 ^ 63 -> (0 <? x)%float = true -> is_finite x = true ->
  int_truediv z x = Returned r ->
  match z ?= 0 with
  | Eq => r = 0%float
  | Lt => (r <? 0)%float = true
  | Gt => (0 <? r)%float = true
  end.
Proof.
  intros Hz Hx Hfin H.
  destruct (Z.eq_dec z 0) as [->|Hz0].
  { simpl. exact (proj1 (int_truediv_sign 0 x r Hz Hx H) eq_refl). }
  unfold int_truediv in H.
  apply bind_Returned in H as (f & Hf & H).
  unfold truediv in H. rewrite (pos_nonzero _ Hx) in H. injection H as <-.
  pose proof (float_of_int_Prim2SF z f Hz Hf) as Hpf.
  destruct (binary_normalize_magnitude z Hz0 Hz) as (m1 & e1 & Hn & Hmag & Hd1).
  rewrite Hn in Hpf.
  pose proof (pos_class x Hx) as Hcls. unfold is_finite in Hfin.
  assert (Hdiv : match Prim2SF (f / x) with
                 | S754_finite s _ _ | S754_infinity s => s = (z <? 0)
                 | _ => False
                 end).
  { rewrite FloatAxioms.div_spec, Hpf. unfold SF64div.
    pose proof (finite_magnitude x) as Hx2.
    destruct (Prim2SF x) as [s'|[]| |[] m2 e2]; try contradiction; try discriminate.
    specialize (Hx2 _ _ _ eq_refl).
    cbv beta iota delta [SFdiv].
    destruct (SFdiv_core_binary_lower m1 e1 m2 e2 Hmag Hd1 Hx2) as [Hq Hlow].
    destruct (SFdiv_core_binary prec emax (Zpos m1) e1 (Zpos m2) e2) as [[q e'] l].
    simpl in Hq, Hlow.
    pose proof (binary_round_aux_nonzero (xorb (z <? 0) false) q e' l Hq Hlow) as Hr.
    rewrite xorb_false_r in *.
    destruct (binary_round_aux _ _ _ _ _ _); try exact Hr. exact (proj1 Hr). }
  rewrite !FloatAxioms.ltb_spec, Prim2SF_0.
  destruct (Z.compare_spec z 0) as [?|Hlt|Hgt]; [contradiction| |].
  - assert (Hb : (z <? 0) = true) by (apply Z.ltb_lt; lia). rewrite Hb in Hdiv.
    destruct (Prim2SF (f / x)) as [s|s| |s m e]; try contradiction; subst s;
      reflexivity.
  - assert (Hb : (z <? 0) = false) by (apply Z.ltb_ge; lia). rewrite Hb in Hdiv.
    destruct (Prim2SF (f / x)) as [s|s| |s m e]; try contradiction; subst s;
      reflexivity.
Qed.

(** The interval of a call is finite when the difference of the clock
    readings is. *)
Lemma py_max_finite x : is_finite x = true -> is_finite (py_max x 0.01) = true.
Proof. intros H. unfold py_max. destruct (x <? 0.01)%float; [reflexivity|exact H]. Qed.

Lemma finite_not_nan x : is_finite x = true -> is_nan x = false.
Proof.
  intros H. destruct (is_nan x) eqn:E; [|reflexivity].
  apply is_nan_spec in E. unfold is_finite in H. rewrite E in H. discriminate.
Qed.

(** X14.  The rates are signed and not clamped.  When the difference of the
    clock readings is finite and a counter has moved by less than [2^63]
    bytes, the rate of the dict is 0.0 if the counter has not moved, below
    zero if it has gone down (as after a reset of the interface), and above
    zero if it has gone up: no movement of a counter is rounded to a rate of
    zero. *)
Theorem rate_follows_counter self now nics d self' current :
  sample self now nics = Returned (d, self') ->
  _read_counters (iface self) nics = Returned current ->
  is_finite (now - last_time self) = true ->
  Z.abs (sent current - sent (prev_counters self)) < 2 ^ 63 ->
  Z.abs (recv current - recv (prev_counters self)) < 2 ^ 63 ->
  match sent current ?= sent (prev_counters self) with
  | Eq => sent_Bps d = 0%float
  | Lt => (sent_Bps d <? 0)%float = true
  | Gt => (0 <? sent_Bps d)%float = true
  end /\
  match recv current ?= recv (prev_counters self) with
  | Eq => recv_Bps d = 0%float
  | Lt => (recv_Bps d <? 0)%float = true
  | Gt => (0 <? recv_Bps d)%float = true
  end.
Proof.
  intros H Hread Hfin Hzs Hzr.
  apply sample_Returned in H
    as (current' & sr & rr & Hread' & Hs & Hr & _ & Hsb & Hrb & _).
  rewrite Hread in Hread'. injection Hread' as <-.
  destruct (py_max_floor (now - last_time self) (finite_not_nan _ Hfin))
    as [_ Hpos].
  pose proof (py_max_finite _ Hfin) as Hfin'.
  rewrite Hsb, Hrb.
  rewrite (Z.compare_sub (sent current)), (Z.compare_sub (recv current)).
  split.
  - exact (int_truediv_strict _ _ _ Hzs Hpos Hfin' Hs).
  - exact (int_truediv_strict _ _ _ Hzr Hpos Hfin' Hr).
Qed.

(** After a reset of [eth0] the sent counter reads 400 after 1000 and the
    received one 2600 after 2000, one second apart: -600 and 600 bytes a
    second. *)
Lemma rate_follows_counter_witness :
  ((sent_Bps Fixture.dict_reset <? 0)%float = true /\
   (0 <? recv_Bps Fixture.dict_reset)%float = true) /\
  sent_Bps Fixture.dict_reset = (-600)%float /\
  recv_Bps Fixture.dict_reset = 600%float.
Proof.
  split; [|split; reflexivity].
  apply (rate_follows_counter Fixture.after_tick1 102 Fixture.nics_reset
           Fixture.dict_reset Fixture.after_reset {| sent := 400; recv := 2600 |});
    vm_compute; reflexivity.
Defined.

End RateSign.

(** ** Smoothing with a factor of 1 *)

Section AlphaOne.
Import TrafficCollector.

Lemma digits2_pos_shift m p :
  Zpos (digits2_pos (Pos.iter xO m p)) = Zpos (digits2_pos m) + Zpos p.
Proof.
  induction p as [|p IH] using Pos.peano_ind.
  - simpl. lia.
  - rewrite Pos.iter_succ. simpl digits2_pos.
    rewrite Pos2Z.inj_succ, IH, Pos2Z.inj_succ. lia.
Qed.

(** Shifting out the zeros that a shift has brought in loses nothing. *)
Lemma iter_shr_1_exact p : forall m,
  SpecFloat.iter_pos shr_1 p
    {| shr_m := Zpos (Pos.iter xO m p); shr_r := false; shr_s := false |}
  = {| shr_m := Zpos m; shr_r := false; shr_s := false |}.
Proof.
  induction p as [p IH|p IH|]; intros m; simpl.
  - rewrite IH, IH. reflexivity.
  - rewrite IH, IH. reflexivity.
  - reflexivity.
Qed.

(** The product of 1 and a float is this float. *)
Lemma SFmul_one_finite s m e :
  bounded prec emax m e = true ->
  SFmul prec emax (S754_finite false 4503599627370496 (-52)) (S754_finite s m e)
  = S754_finite s m e.
Proof.
  intros Hb. unfold bounded, canonical_mantissa in Hb.
  apply andb_prop in Hb as [Hc Hmax].
  apply Z.eqb_eq in Hc. apply Z.leb_le in Hmax.
  cbv beta iota delta [SFmul].
  change (4503599627370496 * m)%positive with (Pos.iter xO m 52).
  change (xorb false s) with s.
  unfold binary_round_aux.
  assert (H1 : shr_fexp prec emax (Zpos (Pos.iter xO m 52)) (-52 + e) loc_Exact
               = ({| shr_m := Zpos m; shr_r := false; shr_s := false |}, e)).
  { unfold shr_fexp, shr. cbv beta iota delta [Zdigits2].
    rewrite digits2_pos_shift.
    replace (Zpos (digits2_pos m) + 52 + (-52 + e)) with (Zpos (digits2_pos m) + e)
      by lia.
    rewrite Hc. replace (e - (-52 + e)) with 52 by lia.
    change (shr_record_of_loc (Zpos (Pos.iter xO m 52)) loc_Exact)
      with {| shr_m := Zpos (Pos.iter xO m 52); shr_r := false; shr_s := false |}.
    rewrite iter_shr_1_exact. f_equal. lia. }
  rewrite H1.
  change (round_nearest_even
            (shr_m {| shr_m := Zpos m; shr_r := false; shr_s := false |})
            (loc_of_shr_record {| shr_m := Zpos m; shr_r := false; shr_s := false |}))
    with (Zpos m).
  assert (H2 : shr_fexp prec emax (Zpos m) e loc_Exact
               = ({| shr_m := Zpos m; shr_r := false; shr_s := false |}, e)).
  { unfold shr_fexp, shr. cbv beta iota delta [Zdigits2].
    rewrite Hc, Z.sub_diag. reflexivity. }
  rewrite H2. simpl shr_m.
  destruct (Z.leb_spec e (emax - prec)) as [_|Hgt]; [reflexivity | lia].
Qed.

Lemma mul_1_l_float r : (1 * r)%float = r.
Proof.
  apply Prim2SF_inj. rewrite FloatAxioms.mul_spec, Prim2SF_1. unfold SF64mul.
  pose proof (Prim2SF_valid r) as Hv.
  destruct (Prim2SF r) as [s|s| |s m e]; try reflexivity.
  apply SFmul_one_finite. exact Hv.
Qed.

(** Adding the product of zero and a finite float changes nothing, but for
    the sign of a negative zero. *)
Lemma add_zero_times r s0 :
  is_finite s0 = true -> Prim2SF r <> S754_zero true ->
  (r + 0 * s0)%float = r.
Proof.
  intros Hf Hr. apply Prim2SF_inj.
  rewrite FloatAxioms.add_spec, FloatAxioms.mul_spec, Prim2SF_0.
  unfold SF64add, SF64mul. unfold is_finite in Hf.
  destruct (Prim2SF s0) as [s|s| |s m e]; try discriminate;
    cbv beta iota delta [SFmul];
    destruct (Prim2SF r) as [[]|[]| |s' m' e']; try reflexivity;
    try congruence; destruct s; reflexivity.
Qed.

(** X15.  With the smoothing factor 1 the average keeps no memory: from the
    second call on, the smoothed rate of a dict is its instantaneous rate, as
    long as the average before it is finite (and the rate is not the negative
    zero, whose sign the sum may lose). *)
Theorem alpha_one_pass_through self now nics d self' :
  sample self now nics = Returned (d, self') ->
  use_ema self = true -> ema_initialized self = true ->
  alpha self = 1%float ->
  (is_finite (sent_ema self) = true -> Prim2SF (sent_Bps d) <> S754_zero true ->
     sent_ema_Bps d = sent_Bps d) /\
  (is_finite (recv_ema self) = true -> Prim2SF (recv_Bps d) <> S754_zero true ->
     recv_ema_Bps d = recv_Bps d).
Proof.
  intros H Hu Hi Ha.
  destruct (sample_ema _ _ _ _ _ H) as (_ & _ & _ & _ & Hrec & _).
  destruct (Hrec Hu Hi) as [Hs Hr]. rewrite Ha in Hs, Hr.
  change (1 - 1)%float with 0%float in Hs, Hr.
  rewrite mul_1_l_float in Hs, Hr.
  split; intros Hf Hz; [rewrite Hs | rewrite Hr]; apply add_zero_times; assumption.
Qed.

Lemma alpha_one_pass_through_witness :
  (is_finite 1000 = true ->
   Prim2SF (sent_Bps Fixture.dict_alpha_1) <> S754_zero true ->
   sent_ema_Bps Fixture.dict_alpha_1 = sent_Bps Fixture.dict_alpha_1) /\
  (is_finite 2000 = true ->
   Prim2SF (recv_Bps Fixture.dict_alpha_1) <> S754_zero true ->
   recv_ema_Bps Fixture.dict_alpha_1 = recv_Bps Fixture.dict_alpha_1).
Proof.
  apply (alpha_one_pass_through Fixture.collector_alpha_1 102 Fixture.nics_t2
           Fixture.dict_alpha_1 Fixture.after_alpha_1);
    vm_compute; reflexivity.
Defined.

End AlphaOne.
